(** * Upload pipeline of the API-Health-Checker repository

    A shallow embedding of [log-processor.js] (the analysis worker thread)
    and of the [/upload] branch of [server.js] (the request server), with the
    parts of the Node.js runtime these two files call: [crypto.createHash],
    [stream.Readable], [readline] with its [string_decoder],
    [JSON.stringify], [assert], [fs.promises] and the [worker_threads]
    message channel. *)

From Stdlib Require Import ZArith List String Ascii Bool Lia DecimalString.
From Stdlib Require DecimalPos.
From Stdlib.Strings Require Import Byte.
From stdpp Require Import base gmap strings.
Import ListNotations.

Set Warnings "-register-all".

Local Open Scope Z_scope.

(* ===================================================================== *)
(** * [crypto.createHash('sha256')]

    The hash object the worker creates. The context absorbs one byte after
    the other and compresses every full block of 64 bytes, as FIPS 180-4
    lays it down; 32-bit words are integers with their wrap-around written
    out. *)

Module Sha256.

Definition wrap32 (x : Z) : Z := x mod 2 ^ 32.
Definition add32 (x y : Z) : Z := wrap32 (x + y).
Definition rotr (n x : Z) : Z :=
  Z.lor (Z.shiftr x n) (wrap32 (Z.shiftl x (32 - n))).
Definition shr (n x : Z) : Z := Z.shiftr x n.
Definition not32 (x : Z) : Z := Z.lxor x 0xffffffff.

Definition Ch (x y z : Z) : Z := Z.lxor (Z.land x y) (Z.land (not32 x) z).
Definition Maj (x y z : Z) : Z :=
  Z.lxor (Z.lxor (Z.land x y) (Z.land x z)) (Z.land y z).
Definition Sigma0 (x : Z) : Z := Z.lxor (Z.lxor (rotr 2 x) (rotr 13 x)) (rotr 22 x).
Definition Sigma1 (x : Z) : Z := Z.lxor (Z.lxor (rotr 6 x) (rotr 11 x)) (rotr 25 x).
Definition sigma0 (x : Z) : Z := Z.lxor (Z.lxor (rotr 7 x) (rotr 18 x)) (shr 3 x).
Definition sigma1 (x : Z) : Z := Z.lxor (Z.lxor (rotr 17 x) (rotr 19 x)) (shr 10 x).

(** The constants are the first 32 bits of the fractional parts of the
    cube roots (round constants) and square roots (initial chaining value)
    of the first primes. *)
Definition is_prime (p : Z) : bool :=
  forallb (fun d => negb (p mod d =? 0))
          (map Z.of_nat (seq 2 (Z.to_nat (Z.sqrt p) - 1))).

Definition primes (n : nat) : list Z :=
  firstn n (List.filter is_prime (map Z.of_nat (seq 2 400))).

(** The integer cube root, one bit after the other. *)
Fixpoint cube_root_bits (i : nat) (n x : Z) : Z :=
  match i with
  | O => x
  | S i' =>
      let y := x + 2 ^ Z.of_nat i' in
      cube_root_bits i' n (if y * y * y <=? n then y else x)
  end.

Definition cube_root (n : Z) : Z := cube_root_bits 40 n 0.

Definition K : list Z :=
  Eval vm_compute in
    map (fun p => wrap32 (cube_root (p * 2 ^ 96))) (primes 64).

(** The eight working words. *)
Definition words8 : Type := (Z * Z * Z * Z * Z * Z * Z * Z)%type.

Definition H0 : words8 :=
  Eval vm_compute in
    match map (fun p => wrap32 (Z.sqrt (p * 2 ^ 64))) (primes 8) with
    | [a; b; c; d; e; f; g; h] => (a, b, c, d, e, f, g, h)
    | _ => (0, 0, 0, 0, 0, 0, 0, 0)
    end.

Definition byteZ (b : byte) : Z := Z.of_N (Byte.to_N b).

(** Big-endian words of a block. *)
Fixpoint be_words (bs : list byte) : list Z :=
  match bs with
  | b0 :: b1 :: b2 :: b3 :: rest =>
      (byteZ b0 * 2 ^ 24 + byteZ b1 * 2 ^ 16 + byteZ b2 * 2 ^ 8 + byteZ b3)
        :: be_words rest
  | _ => []
  end.

(** The message schedule, newest word first: [extend n ws] adds [n] words
    to the reversed schedule [ws]. *)
Fixpoint extend (n : nat) (ws : list Z) : list Z :=
  match n with
  | O => ws
  | S n' =>
      let w := add32 (add32 (sigma1 (nth 1 ws 0)) (nth 6 ws 0))
                     (add32 (sigma0 (nth 14 ws 0)) (nth 15 ws 0)) in
      extend n' (w :: ws)
  end.

Definition schedule (block : list byte) : list Z :=
  rev (extend 48 (rev (be_words block))).

Definition round (s : words8) (kw : Z * Z) : words8 :=
  let '(a, b, c, d, e, f, g, h) := s in
  let t1 := add32 (add32 (add32 h (Sigma1 e)) (add32 (Ch e f g) (fst kw))) (snd kw) in
  let t2 := add32 (Sigma0 a) (Maj a b c) in
  (add32 t1 t2, a, b, c, add32 d t1, e, f, g).

Definition compress (hv : words8) (block : list byte) : words8 :=
  let '(a, b, c, d, e, f, g, h) := hv in
  let '(a', b', c', d', e', f', g', h') :=
    fold_left round (combine K (schedule block)) hv in
  (add32 a a', add32 b b', add32 c c', add32 d d',
   add32 e e', add32 f f', add32 g g', add32 h h').

(** The streaming context: chaining value, bytes of the block under way,
    and the number of bytes absorbed. *)
Record ctx : Type := Ctx {
  chain : words8;
  pending : list byte;
  absorbed : Z
}.

Definition init : ctx := Ctx H0 [] 0.

Definition update_byte (c : ctx) (b : byte) : ctx :=
  let p := (pending c ++ [b])%list in
  if (length p =? 64)%nat
  then Ctx (compress (chain c) p) [] (absorbed c + 1)
  else Ctx (chain c) p (absorbed c + 1).

Definition update (c : ctx) (data : list byte) : ctx :=
  fold_left update_byte data c.

Definition byte_of_Z (z : Z) : byte :=
  match Byte.of_N (Z.to_N (z mod 256)) with
  | Some b => b
  | None => x00
  end.

(** The 64-bit big-endian bit length. *)
Definition be64 (n : Z) : list byte :=
  map (fun i => byte_of_Z (Z.shiftr n (8 * i))) [7; 6; 5; 4; 3; 2; 1; 0].

Definition padding (c : ctx) : list byte :=
  (x80 :: repeat x00 (Z.to_nat ((55 - absorbed c) mod 64)))
    ++ be64 (8 * absorbed c).

Definition finish (c : ctx) : words8 :=
  chain (fold_left update_byte (padding c) c).

Definition hex_digit (n : Z) : ascii :=
  match n with
  | 0 => "0" | 1 => "1" | 2 => "2" | 3 => "3" | 4 => "4" | 5 => "5"
  | 6 => "6" | 7 => "7" | 8 => "8" | 9 => "9" | 10 => "a" | 11 => "b"
  | 12 => "c" | 13 => "d" | 14 => "e" | _ => "f"
  end%char.

Definition hex32 (x : Z) (tail : string) : string :=
  String (hex_digit (Z.shiftr x 28 mod 16))
 (String (hex_digit (Z.shiftr x 24 mod 16))
 (String (hex_digit (Z.shiftr x 20 mod 16))
 (String (hex_digit (Z.shiftr x 16 mod 16))
 (String (hex_digit (Z.shiftr x 12 mod 16))
 (String (hex_digit (Z.shiftr x 8 mod 16))
 (String (hex_digit (Z.shiftr x 4 mod 16))
 (String (hex_digit (x mod 16)) tail))))))).

Definition hex_of_words (w : words8) : string :=
  let '(a, b, c, d, e, f, g, h) := w in
  hex32 a (hex32 b (hex32 c (hex32 d (hex32 e (hex32 f (hex32 g (hex32 h ""))))))).

(** [hash.digest('hex')]. *)
Definition digest_hex (c : ctx) : string := hex_of_words (finish c).

(** One-shot digest of a byte string. *)
Definition sha256_hex (data : list byte) : string :=
  digest_hex (update init data).

End Sha256.

(* ===================================================================== *)
(** * JavaScript values

    The values that travel over the message channel and that the request
    handler inspects: primitives and plain objects. A number is an integer
    (the counters of the worker are; exact below 2^53) or [NaN]; the strings
    of a message are property names and a hexadecimal digest, kept as
    [string]; text decoded from the body is kept apart, as [text] below.
    An object is the list of its own properties in insertion order. *)

Module Js.

Inductive value : Type :=
| Undefined
| Null
| Boolean (b : bool)
| Num (z : Z)
| NaN
| Str (s : string)
| Obj (props : list (string * value)).

(** What a [throw] carries. *)
Inductive error : Type :=
| AssertionError (message : string)
| TypeError (message : string)
| Error (message : string).

Definition message (e : error) : string :=
  match e with
  | AssertionError m | TypeError m | Error m => m
  end.

(** [err instanceof assert.AssertionError] *)
Definition instanceof_AssertionError (e : error) : bool :=
  match e with
  | AssertionError _ => true
  | _ => false
  end.

Definition typeof (v : value) : string :=
  match v with
  | Undefined => "undefined"
  | Null => "object"
  | Boolean _ => "boolean"
  | Num _ | NaN => "number"
  | Str _ => "string"
  | Obj _ => "object"
  end.

Fixpoint lookup_prop (k : string) (props : list (string * value)) : value :=
  match props with
  | [] => Undefined
  | (k', v) :: rest => if String.eqb k k' then v else lookup_prop k rest
  end.

(** [v.k] for a property name [k] that no prototype defines: reading a
    property of [undefined] or [null] throws, a missing property reads as
    [undefined]. *)
Definition get (v : value) (k : string) : error + value :=
  match v with
  | Undefined =>
      inl (TypeError ("Cannot read properties of undefined (reading '"
                        ++ k ++ "')"))
  | Null =>
      inl (TypeError ("Cannot read properties of null (reading '"
                        ++ k ++ "')"))
  | Obj props => inr (lookup_prop k props)
  | _ => inr Undefined
  end.

(** [v === 'lit'] for a string literal. *)
Definition strict_eq_str (v : value) (lit : string) : bool :=
  match v with
  | Str s => String.eqb s lit
  | _ => false
  end.

(** [o[k] = v] on the property list: an existing key keeps its place. *)
Fixpoint set_prop (k : string) (v : value) (props : list (string * value))
  : list (string * value) :=
  match props with
  | [] => [(k, v)]
  | (k', v') :: rest =>
      if String.eqb k k' then (k, v) :: rest
      else (k', v') :: set_prop k v rest
  end.

Definition number_to_string (z : Z) : string :=
  NilZero.string_of_int (Z.to_int z).

Fixpoint indexed_chars (i : Z) (s : string) : list (string * value) :=
  match s with
  | EmptyString => []
  | String c rest =>
      (number_to_string i, Str (String c "")) :: indexed_chars (i + 1) rest
  end.

(** The own enumerable properties an object spread [{...v}] copies: the
    properties of an object, the indexed characters of a string, none for
    the other primitives. *)
Definition own_props (v : value) : list (string * value) :=
  match v with
  | Obj props => props
  | Str s => indexed_chars 0 s
  | _ => []
  end.

(** ** [JSON.stringify] *)

Definition hex4 (n : Z) : string :=
  String (Sha256.hex_digit (Z.shiftr n 12 mod 16))
 (String (Sha256.hex_digit (Z.shiftr n 8 mod 16))
 (String (Sha256.hex_digit (Z.shiftr n 4 mod 16))
 (String (Sha256.hex_digit (n mod 16)) ""))).

Definition dquote : ascii := ascii_of_nat 34.
Definition backslash : ascii := ascii_of_nat 92.

Definition escape_char (c : ascii) : string :=
  let n := Z.of_N (N_of_ascii c) in
  if n =? 34 then String backslash (String dquote "")
  else if n =? 92 then String backslash (String backslash "")
  else if n =? 8 then String backslash "b"
  else if n =? 9 then String backslash "t"
  else if n =? 10 then String backslash "n"
  else if n =? 12 then String backslash "f"
  else if n =? 13 then String backslash "r"
  else if n <? 32 then String backslash ("u" ++ hex4 n)
  else String c "".

Fixpoint escape (s : string) : string :=
  match s with
  | EmptyString => ""
  | String c rest => escape_char c ++ escape rest
  end.

Definition quote (s : string) : string :=
  String dquote (escape s ++ String dquote "").

Fixpoint join (sep : string) (parts : list string) : string :=
  match parts with
  | [] => ""
  | [p] => p
  | p :: rest => p ++ sep ++ join sep rest
  end.

(** [JSON.stringify(v, null, gap)] at the indentation [indent]; [None] is
    the result [undefined]. A property whose value serializes to
    [undefined] is left out. *)
Fixpoint serialize (gap indent : string) (v : value) : option string :=
  match v with
  | Undefined => None
  | Null => Some "null"
  | Boolean true => Some "true"
  | Boolean false => Some "false"
  | Num z => Some (number_to_string z)
  | NaN => Some "null"
  | Str s => Some (quote s)
  | Obj props =>
      let stepback := indent in
      let indent := indent ++ gap in
      let member :=
        fix member (ps : list (string * value)) : list string :=
          match ps with
          | [] => []
          | (k, v') :: rest =>
              match serialize gap indent v' with
              | Some str =>
                  (quote k ++ ":" ++ (if String.eqb gap "" then "" else " ")
                     ++ str) :: member rest
              | None => member rest
              end
          end in
      match member props with
      | [] => Some "{}"
      | partial =>
          if String.eqb gap "" then
            Some ("{" ++ join "," partial ++ "}")
          else
            let nl := String (ascii_of_nat 10) "" in
            Some ("{" ++ nl ++ indent
                      ++ join ("," ++ nl ++ indent) partial
                      ++ nl ++ stepback ++ "}")
      end
  end%string.

Definition stringify (v : value) : option string := serialize "" "" v.
Definition stringify_indent2 (v : value) : option string := serialize "  " "" v.

(** ** Decoded text

    A string that a decoder has made of bytes is kept as the list of its
    code points. The worker looks at such a string for line endings and
    for the letters of its markers, all of one code unit, and for its
    emptiness: nothing it does depends on how a code point above 2^16 is
    cut into two code units. *)

Definition text : Type := list Z.

(** The code points of a string of the source text. *)
Definition chars (s : string) : text :=
  map (fun c => Z.of_N (N_of_ascii c)) (list_ascii_of_string s).

End Js.

(* ===================================================================== *)
(** * [new StringDecoder('utf8')]

    The decoder that [readline] puts in front of its input. It lets
    through whole characters only: a lead byte and the continuation bytes
    that follow it are held back until the sequence is as long as the high
    bits of the lead announce, or until a byte that is no continuation
    byte breaks it. What is held back when the input ends is never let
    through, since [readline] does not call [end()] on its decoder.

    The bytes let through are decoded as V8 decodes UTF-8: a sequence that
    is well formed gives its code point, one that is not gives U+FFFD once
    for each maximal part of it that could have started a character. *)

Module StringDecoder.

Definition REPLACEMENT : Z := 0xFFFD.

Definition code (b : byte) : Z := Z.of_N (Byte.to_N b).

(** [(b & 0xC0) === 0x80] *)
Definition is_continuation (b : byte) : bool :=
  (0x80 <=? code b) && (code b <=? 0xBF).

(** The continuation bytes that the high bits of a byte announce: one for
    [110xxxxx], two for [1110xxxx], three for [11110xxx], none for a byte
    that is no lead. *)
Definition announced (b : byte) : nat :=
  let c := code b in
  if (0xC0 <=? c) && (c <=? 0xDF) then 1
  else if (0xE0 <=? c) && (c <=? 0xEF) then 2
  else if (0xF0 <=? c) && (c <=? 0xF7) then 3
  else 0.

(** A sequence that starts as a character can: the lead is one that UTF-8
    uses, and the byte after it, if there is one, is in the range the lead
    leaves to it (no overlong form, no surrogate, nothing above
    U+10FFFF). *)
Definition well_begun (lead : byte) (conts : list byte) : bool :=
  let l := code lead in
  (0xC2 <=? l) && (l <=? 0xF4) &&
  match conts with
  | [] => true
  | c :: _ =>
      let low := if l =? 0xE0 then 0xA0 else if l =? 0xF0 then 0x90 else 0x80 in
      let high := if l =? 0xED then 0x9F else if l =? 0xF4 then 0x8F else 0xBF in
      (low <=? code c) && (code c <=? high)
  end.

(** The bits of the lead that belong to the code point. *)
Definition payload (lead : byte) : Z :=
  match announced lead with
  | 1%nat => code lead - 0xC0
  | 2%nat => code lead - 0xE0
  | 3%nat => code lead - 0xF0
  | _ => 0
  end.

Definition code_point (lead : byte) (conts : list byte) : Z :=
  fold_left (fun cp c => 64 * cp + (code c - 0x80)) conts (payload lead).

(** V8 on a lead byte and the continuation bytes held with it. *)
Definition decode_sequence (s : list byte) : Js.text :=
  match s with
  | [] => []
  | lead :: conts =>
      if well_begun lead conts then
        if Nat.eqb (length conts) (announced lead)
        then [code_point lead conts]
        else [REPLACEMENT]
      else repeat REPLACEMENT (length s)
  end.

(** The bytes held back, and how many are missing to the sequence. *)
Record t : Type := Decoder {
  buffered : list byte;
  missing : nat
}.

Definition create : t := Decoder [] 0.

(** A byte that no sequence under way waits for. *)
Definition fresh (b : byte) : Js.text * t :=
  if code b <? 0x80 then ([code b], create)
  else
    match announced b with
    | O => ([REPLACEMENT], create)
    | S n => ([], Decoder [b] (S n))
    end.

Definition step (d : t) (b : byte) : Js.text * t :=
  match missing d with
  | O => fresh b
  | S m =>
      if is_continuation b then
        match m with
        | O => (decode_sequence (buffered d ++ [b]), create)
        | S _ => ([], Decoder (buffered d ++ [b]) m)
        end
      else
        let (out, d') := fresh b in
        (decode_sequence (buffered d) ++ out, d')
  end.

(** [decoder.write(chunk)]: the text let through, and the decoder after. *)
Fixpoint write (d : t) (chunk : list byte) : Js.text * t :=
  match chunk with
  | [] => ([], d)
  | b :: rest =>
      let (out, d1) := step d b in
      let (more, d2) := write d1 rest in
      (out ++ more, d2)
  end.

End StringDecoder.

(* ===================================================================== *)
(** * [readline.createInterface({ input, crlfDelay: Infinity })]

    The interface reads a stream that is not a terminal, so every chunk
    goes through the plain write path, as Node 18 and later have it (the
    releases whose [fetch] the health checker of this repository needs):
    the chunk goes through the decoder, the new text is searched for a
    line ending ([\r\n], [\n], a [\r] that no [\n] follows, U+2028 or
    U+2029), the text before each ending is emitted as a line, and what
    follows the last ending waits in the line buffer. A [\n] that opens
    new text is dropped when the text before it closed with [\r]. *)

Module Readline.

Definition CR : Z := 13.
Definition LF : Z := 10.
Definition LS : Z := 0x2028.
Definition PS : Z := 0x2029.

(** The text that the decoder of a new interface lets through of the
    bytes of a whole input. *)
Definition decode (input : list byte) : Js.text :=
  fst (StringDecoder.write StringDecoder.create input).

Record t : Type := Interface {
  line_buffer : Js.text;
  sawReturn : bool;
  closed : bool;
  decoder : StringDecoder.t
}.

Definition createInterface : t :=
  Interface [] false false StringDecoder.create.

Definition is_separator (c : Z) : bool := (c =? LS) || (c =? PS).

(** [lineEnding.test(string)] *)
Fixpoint has_lineEnding (s : Js.text) : bool :=
  match s with
  | [] => false
  | c :: rest =>
      (c =? CR) || (c =? LF) || is_separator c || has_lineEnding rest
  end.

Fixpoint endsWith_CR (s : Js.text) : bool :=
  match s with
  | [] => false
  | [c] => c =? CR
  | _ :: rest => endsWith_CR rest
  end.

Definition cons_first (c : Z) (r : list Js.text * Js.text)
  : list Js.text * Js.text :=
  match r with
  | ([], rest) => ([], c :: rest)
  | (l :: ls, rest) => ((c :: l) :: ls, rest)
  end.

(** The text cut at every line ending: the lines that are complete, and
    the text after the last ending. *)
Fixpoint split_lines (s : Js.text) : list Js.text * Js.text :=
  match s with
  | [] => ([], [])
  | c :: rest =>
      if c =? LF then
        let (ls, r) := split_lines rest in ([] :: ls, r)
      else if c =? CR then
        match rest with
        | c' :: rest' =>
            if c' =? LF then
              let (ls, r) := split_lines rest' in ([] :: ls, r)
            else
              let (ls, r) := split_lines rest in ([] :: ls, r)
        | [] => ([[]], [])
        end
      else if is_separator c then
        let (ls, r) := split_lines rest in ([] :: ls, r)
      else cons_first c (split_lines rest)
  end.

Definition skip_LF (s : Js.text) : Js.text :=
  match s with
  | c :: rest => if c =? LF then rest else s
  | [] => s
  end.

(** The write path for one ['data'] event; returns the lines emitted. *)
Definition normalWrite (rl : t) (b : list byte) : t * list Js.text :=
  let (string, decoder) := StringDecoder.write (decoder rl) b in
  let after_return := sawReturn rl && (0 <? length string)%nat in
  let string := if after_return then skip_LF string else string in
  let saw := if after_return then false else sawReturn rl in
  if has_lineEnding string then
    let string := (line_buffer rl ++ string)%list in
    let (lines, rest) := split_lines string in
    (Interface rest (endsWith_CR string) (closed rl) decoder, lines)
  else
    (Interface (line_buffer rl ++ string)%list saw (closed rl) decoder, []).

(** The ['end'] of the input: a line under way is emitted, and the
    interface closes; what the decoder holds back stays there. The last
    component tells whether ['close'] is emitted: an interface closes
    once. *)
Definition onend (rl : t) : t * list Js.text * bool :=
  let lines :=
    if (0 <? length (line_buffer rl))%nat then [line_buffer rl] else [] in
  (Interface (line_buffer rl) (sawReturn rl) true (decoder rl), lines,
   negb (closed rl)).

End Readline.

(* ===================================================================== *)
(** * [log-processor.js]: the analysis worker *)

Module LogProcessor.

(** A message from the main thread. *)
Record message : Type := Message {
  type : string;
  data : list byte
}.

Definition chunk_message (chunk : list byte) : message := Message "chunk" chunk.
Definition end_message : message := Message "end" [].

(** The module-level state of the worker thread. [posted] are the messages
    handed to [parentPort.postMessage]; [fault] is the exception that
    escaped a handler and stopped the thread. *)
Record state : Type := State {
  hash : Sha256.ctx;
  hash_finalized : bool;
  incomingStream_ended : bool;
  rl : Readline.t;
  lineCount : Z;
  errorCount : Z;
  posted : list Js.value;
  fault : option Js.error
}.

Definition init : state :=
  State Sha256.init false false Readline.createInterface 0 0 [] None.

Fixpoint starts_with (needle line : Js.text) : bool :=
  match needle, line with
  | [], _ => true
  | n :: needle', c :: line' => (n =? c) && starts_with needle' line'
  | _ :: _, [] => false
  end.

(** [line.includes(needle)] *)
Fixpoint includes (line needle : Js.text) : bool :=
  starts_with needle line ||
  match line with
  | [] => false
  | _ :: rest => includes rest needle
  end.

(** [rl.on('line', ...)] *)
Definition on_line (st : state) (line : Js.text) : state :=
  let lineCount := lineCount st + 1 in
  let errorCount :=
    if includes line (Js.chars "ERROR") || includes line (Js.chars "CRITICAL")
    then errorCount st + 1
    else errorCount st in
  State (hash st) (hash_finalized st) (incomingStream_ended st) (rl st)
        lineCount errorCount (posted st) (fault st).

Definition throw (st : state) (e : Js.error) : state :=
  State (hash st) (hash_finalized st) (incomingStream_ended st) (rl st)
        (lineCount st) (errorCount st) (posted st) (Some e).

Definition report_of (finalHash : string) (lineCount errorCount : Z) : Js.value :=
  Js.Obj [ ("status", Js.Str "success");
           ("finalHash", Js.Str finalHash);
           ("lineCount", Js.Num lineCount);
           ("errorCount", Js.Num errorCount) ]%string.

(** [rl.on('close', ...)] *)
Definition on_close (st : state) : state :=
  if hash_finalized st then throw st (Js.Error "Digest already called")
  else
    let finalHash := Sha256.digest_hex (hash st) in
    State (hash st) true (incomingStream_ended st) (rl st)
          (lineCount st) (errorCount st)
          (posted st ++ [report_of finalHash (lineCount st) (errorCount st)])
          (fault st).

(** [hash.update(message.data)] *)
Definition hash_update (st : state) (chunk : list byte) : state :=
  if hash_finalized st then throw st (Js.Error "Digest already called")
  else
    State (Sha256.update (hash st) chunk) (hash_finalized st)
          (incomingStream_ended st) (rl st)
          (lineCount st) (errorCount st) (posted st) (fault st).

Definition with_rl (st : state) (r : Readline.t) : state :=
  State (hash st) (hash_finalized st) (incomingStream_ended st) r
        (lineCount st) (errorCount st) (posted st) (fault st).

(** [incomingStream.push(chunk)]: the stream flows into the interface, so
    a chunk that is not empty is a ['data'] event at once; an empty chunk
    is no event; a chunk after the end is a stream error nobody handles. *)
Definition push (st : state) (chunk : list byte) : state :=
  if incomingStream_ended st then throw st (Js.Error "stream.push() after EOF")
  else
    match chunk with
    | [] => st
    | _ =>
        let (r, lines) := Readline.normalWrite (rl st) chunk in
        fold_left on_line lines (with_rl st r)
    end.

(** [incomingStream.push(null)]: the stream ends, the interface emits the
    line under way and closes, and the close handler reports. *)
Definition push_null (st : state) : state :=
  if incomingStream_ended st then st
  else
    let st := State (hash st) (hash_finalized st) true (rl st)
                    (lineCount st) (errorCount st) (posted st) (fault st) in
    let '(r, lines, close) := Readline.onend (rl st) in
    let st := fold_left on_line lines (with_rl st r) in
    if close then on_close st else st.

(** [parentPort.on('message', ...)]. A thread that an exception stopped
    handles nothing more. *)
Definition on_message (st : state) (message : message) : state :=
  match fault st with
  | Some _ => st
  | None =>
      if String.eqb (type message) "chunk" then
        let st := hash_update st (data message) in
        match fault st with
        | Some _ => st
        | None => push st (data message)
        end
      else if String.eqb (type message) "end" then
        push_null st
      else st
  end.

Definition run (st : state) (messages : list message) : state :=
  fold_left on_message messages st.

(** The worker fed the chunks of one upload and the end message. *)
Definition analyse (chunks : list (list byte)) : state :=
  run init (map chunk_message chunks ++ [end_message]).

End LogProcessor.

(* ===================================================================== *)
(** * [server.js]: the request server, [POST /upload] *)

Module Server.

(** ** Results of a [try] block *)

(** A statement that throws stops the [try] block. *)
#[global] Instance try_bind : MBind (sum Js.error) :=
  fun A B k x =>
    match x with
    | inl e => inl e
    | inr a => k a
    end.

(** [assert.ok(value, message)] *)
Definition assert_ok (value : bool) (message : string) : Js.error + unit :=
  if value then inr tt else inl (Js.AssertionError message).

(** [assert.strictEqual(actual, expected, message)] on two strings *)
Definition assert_strictEqual (actual expected message : string)
  : Js.error + unit :=
  if String.eqb actual expected then inr tt
  else inl (Js.AssertionError message).

(** Step 1 of the report handler. The result is [report.finalHash], a
    string once the second assertion has passed. *)
Definition validate (report : Js.value) : Js.error + string :=
  status ← Js.get report "status";
  assert_ok (Js.strict_eq_str status "success")
            "Worker report status not success";;
  finalHash ← Js.get report "finalHash";
  assert_strictEqual (Js.typeof finalHash) "string" "Invalid hash type";;
  match finalHash with
  | Js.Str h =>
      assert_ok (10 <? Z.of_nat (String.length h)) "Invalid hash length";;
      lineCount ← Js.get report "lineCount";
      assert_strictEqual (Js.typeof lineCount) "number"
                         "Invalid lineCount type";;
      inr h
  | _ => inl (Js.AssertionError "Invalid hash type")
  end.

(** ** The file system, as [fs.promises] shows it *)

Inductive fs_call : Type :=
| Mkdir (dir : string)
| WriteFile (path content : string).

Record fs : Type := Fs {
  dirs : gset string;
  files : gmap string string;
  calls : list fs_call
}.

(** What the operating system answers to a call: [None] when it carries
    the call out, the error the promise rejects with otherwise. A
    [writeFile] opens the file for writing, which creates it or cuts it to
    nothing, and then writes; [written path content] tells what a
    [writeFile] that fails leaves: [None] when it fails before the file is
    opened, [Some n] when the file was opened and [n] characters were
    written. *)
Record io : Type := Io {
  answer : fs_call -> option Js.error;
  written : string -> string -> option nat
}.

#[local] Coercion answer : io >-> Funclass.

(** [fsp.mkdir(dir, { recursive: true })] *)
Definition mkdir (os : io) (dir : string) (f : fs) : fs * (Js.error + unit) :=
  let calls := (calls f ++ [Mkdir dir])%list in
  match os (Mkdir dir) with
  | Some e => (Fs (dirs f) (files f) calls, inl e)
  | None => (Fs ({[dir]} ∪ dirs f) (files f) calls, inr tt)
  end.

(** [fsp.writeFile(path, content)] *)
Definition writeFile (os : io) (path content : string) (f : fs)
  : fs * (Js.error + unit) :=
  let calls := (calls f ++ [WriteFile path content])%list in
  match os (WriteFile path content) with
  | Some e =>
      let files :=
        match written os path content with
        | Some n => <[path := String.substring 0 n content]> (files f)
        | None => files f
        end in
      (Fs (dirs f) files calls, inl e)
  | None => (Fs (dirs f) (<[path := content]> (files f)) calls, inr tt)
  end.

(** ** One upload *)

Record response : Type := Response {
  statusCode : Z;
  contentType : string;
  body : string
}.

(** The state one upload request works on: the messages handed to the
    worker and not yet taken by it, whether [terminate()] was called on
    the worker, the response once written, the file system, and whether an
    exception escaped a handler. *)
Record conn : Type := Conn {
  inbox : list LogProcessor.message;
  terminated : bool;
  res : option response;
  disk : fs;
  crashed : bool
}.

Definition accept (disk : fs) : conn := Conn [] false None disk false.

(** [logProcessorWorker.postMessage(m)]: the message joins the queue of
    the worker's port; the call returns at once. *)
Definition postMessage (c : conn) (m : LogProcessor.message) : conn :=
  Conn (inbox c ++ [m]) (terminated c) (res c) (disk c) (crashed c).

(** [logProcessorWorker.terminate()] *)
Definition terminate (c : conn) : conn :=
  Conn (inbox c) true (res c) (disk c) (crashed c).

(** [res.writeHead(statusCode, { 'Content-Type': t }); res.end(body)]. A
    second [writeHead] on one response throws. *)
Definition respond (c : conn) (r : response) : conn :=
  match res c with
  | None => Conn (inbox c) (terminated c) (Some r) (disk c) (crashed c)
  | Some _ => Conn (inbox c) (terminated c) (res c) (disk c) true
  end.

Definition with_disk (c : conn) (f : fs) : conn :=
  Conn (inbox c) (terminated c) (res c) f (crashed c).

(** [req.on('data', ...)] *)
Definition on_req_data (c : conn) (chunk : list byte) : conn :=
  postMessage c (LogProcessor.chunk_message chunk).

(** [req.on('end', ...)] *)
Definition on_req_end (c : conn) : conn :=
  postMessage c LogProcessor.end_message.

(** [req.on('error', ...)] *)
Definition on_req_error (c : conn) : conn :=
  respond (terminate c) (Response 500 "text/plain" "Request stream error.").

(** [logProcessorWorker.on('error', ...)] *)
Definition on_worker_error (c : conn) : conn :=
  respond c (Response 500 "text/plain" "Processing error.").

Section Upload.

(** The directory of [server.js]. *)
Variable __dirname : string.

(** [path.join(dir, name)] for a normalized directory path and a file name
    of one segment, as a hex digest with its extension is; a name with
    separators or dots for segments would be normalized further. *)
Definition path_join (dir name : string) : string :=
  (dir ++ "/" ++ name)%string.

Definition REPORTS_DIR : string := path_join __dirname "reports".

(** The [catch] branch of the report handler. *)
Definition catch (c : conn) (err : Js.error) : conn :=
  let statusCode := 500 in
  let statusCode :=
    if Js.instanceof_AssertionError err then 400 else statusCode in
  respond c (Response statusCode "text/plain"
               ("Failed to process report: " ++ Js.message err)%string).

(** Steps 2 and 3 of the report handler, after validation. *)
Definition store_and_respond (os : io) (c : conn) (report : Js.value)
  (finalHash : string) : conn :=
  let reportFileName := (finalHash ++ ".json")%string in
  let reportPath := path_join REPORTS_DIR reportFileName in
  let reportContent := Js.stringify_indent2 report in
  let (d, made) := mkdir os REPORTS_DIR (disk c) in
  let c := with_disk c d in
  match made with
  | inl err => catch c err
  | inr _ =>
      match reportContent with
      | None =>
          catch c (Js.TypeError
            ("The " ++ String Js.dquote ("data" ++ String Js.dquote
               " argument must be of type string or an instance of Buffer, TypedArray, or DataView. Received undefined")))%string
      | Some reportContent =>
          let (d, written) := writeFile os reportPath reportContent (disk c) in
          let c := with_disk c d in
          match written with
          | inl err => catch c err
          | inr _ =>
              let answer :=
                Js.Obj (Js.set_prop "reportPath" (Js.Str reportPath)
                                    (Js.own_props report)) in
              match res c with
              | Some _ =>
                  (* [writeHead] throws inside the [try] *)
                  catch c (Js.Error "Cannot write headers after they are sent to the client")
              | None =>
                  respond c (Response 200 "application/json"
                               (default ""%string (Js.stringify answer)))
              end
          end
      end
  end.

(** [logProcessorWorker.on('message', async (report) => ...)] *)
Definition on_worker_message (os : io) (c : conn) (report : Js.value) : conn :=
  match validate report with
  | inr finalHash => store_and_respond os c report finalHash
  | inl err => catch c err
  end.

End Upload.

End Server.

Coercion Server.answer : Server.io >-> Funclass.

(* ===================================================================== *)
(** * The two threads of one upload

    The main thread runs the request handlers; the worker thread takes the
    messages of its port one at a time, in the order they were posted. A
    message the worker posts is handled by the main thread within the turn
    that posted it. A worker that throws is stopped by the runtime, which
    then emits ['error'] on the main thread.

    The report handler is followed as one step, from the message to its
    answer: the two points where it waits for the file system are not
    places where a trace can put another event, and [terminate()] stops
    the worker at once. What is stated over traces below is what holds
    wherever the handler waits and whenever the worker stops. *)

Module Pipeline.

Record system : Type := System {
  srv : Server.conn;
  wrk : LogProcessor.state
}.

Inductive event : Type :=
| ReqData (chunk : list byte)   (* the request emits 'data' *)
| ReqEnd                        (* the request emits 'end' *)
| ReqError                      (* the request emits 'error' *)
| WorkerTurn                    (* the worker handles its next message *)
| WorkerFault (e : Js.error).   (* the worker throws on its own *)

(** The worker thread runs until it throws or is terminated. *)
Definition running (s : system) : bool :=
  negb (Server.terminated (srv s)) &&
  match LogProcessor.fault (wrk s) with
  | None => true
  | Some _ => false
  end.

Definition take (c : Server.conn) (rest : list LogProcessor.message)
  : Server.conn :=
  Server.Conn rest (Server.terminated c) (Server.res c) (Server.disk c)
              (Server.crashed c).

Section Upload.

Variable __dirname : string.
Variable os : Server.io.

Definition deliver (c : Server.conn) (reports : list Js.value) : Server.conn :=
  fold_left (Server.on_worker_message __dirname os) reports c.

Definition signal (c : Server.conn) (w : LogProcessor.state) : Server.conn :=
  match LogProcessor.fault w with
  | Some _ => Server.on_worker_error c
  | None => c
  end.

Definition step (s : system) (ev : event) : system :=
  match ev with
  | ReqData chunk => System (Server.on_req_data (srv s) chunk) (wrk s)
  | ReqEnd => System (Server.on_req_end (srv s)) (wrk s)
  | ReqError => System (Server.on_req_error (srv s)) (wrk s)
  | WorkerTurn =>
      if running s then
        match Server.inbox (srv s) with
        | [] => s
        | m :: rest =>
            let w := LogProcessor.on_message (wrk s) m in
            let fresh :=
              skipn (length (LogProcessor.posted (wrk s)))
                    (LogProcessor.posted w) in
            System (signal (deliver (take (srv s) rest) fresh) w) w
        end
      else s
  | WorkerFault e =>
      if running s then
        let w := LogProcessor.throw (wrk s) e in
        System (signal (srv s) w) w
      else s
  end.

Definition start (disk : Server.fs) : system :=
  System (Server.accept disk) LogProcessor.init.

Definition serve (disk : Server.fs) (trace : list event) : system :=
  fold_left step trace (start disk).

(** One whole upload: the body arrives, then the worker works its queue
    off. *)
Definition upload_trace (chunks : list (list byte)) : list event :=
  map ReqData chunks ++ [ReqEnd] ++ repeat WorkerTurn (S (length chunks)).

Definition upload (disk : Server.fs) (chunks : list (list byte)) : Server.conn :=
  srv (serve disk (upload_trace chunks)).

End Upload.

(** The bytes waiting between the request stream and the worker. *)
Definition buffered (s : system) : Z :=
  fold_right (fun m n => Z.of_nat (length (LogProcessor.data m)) + n) 0
             (Server.inbox (srv s)).

End Pipeline.

(* ===================================================================== *)
(** * [server.js]: the cluster master

    The primary process forks one worker process per CPU and forks a new one
    whenever a worker exits. The workers of the cluster are known by the ids
    the cluster gives them, 1, 2, 3 and so on. *)

Module Cluster.

Record master : Type := Master {
  workers : list nat;
  next_id : nat
}.

(** [cluster.fork()] *)
Definition fork (m : master) : master :=
  Master (workers m ++ [next_id m]) (S (next_id m)).

(** [for (let i = 0; i < numCPUs; i++) cluster.fork()] *)
Fixpoint fork_all (n : nat) (m : master) : master :=
  match n with
  | O => m
  | S n' => fork_all n' (fork m)
  end.

Definition start (numCPUs : nat) : master := fork_all numCPUs (Master [] 1).

Definition id_eqb (id : nat) (w : nat) : bool := negb (Nat.eqb w id).

(** [cluster.on('exit', ...)]: the cluster has taken the dead worker off its
    list when the handler runs. Only a worker of the list can exit. *)
Definition on_exit (m : master) (id : nat) : master :=
  if existsb (Nat.eqb id) (workers m) then
    fork (Master (List.filter (id_eqb id) (workers m)) (next_id m))
  else m.

Definition run (numCPUs : nat) (exits : list nat) : master :=
  fold_left on_exit exits (start numCPUs).

End Cluster.

(* ===================================================================== *)
(** * [server.js]: [GET /archive] *)

Module Routes.

Section Archive.

Variable __dirname : string.

(** Where [tar] writes the archive of the reports directory. *)
Definition archivePath : string := Server.path_join __dirname "reports.tar.gz".

End Archive.

End Routes.

(* ===================================================================== *)
(** * The chunked data processor

    [DataProcessor] works one item per call of [_processNextChunk] and
    schedules the next call with [setTimeout(..., 0)]. The three listeners
    of the script only log, so the processor is read by the events it
    emits. [Math.round] of the floating-point quotient is not computed
    here: [percent] stands for it. *)

Module DataProcessor.

Section Processor.

Variable percent : Z -> Z -> Js.value.

Inductive event : Type :=
| Progress (items : Z) (percent : Js.value)
| Finished (totalItems : Z) (duration : string)
| Failed (error : Js.error).

(** [timers] counts the calls that [setTimeout] has scheduled and that have
    not run yet. *)
Record t : Type := Processor {
  processedCount : Z;
  totalCount : Z;
  emitted : list event;
  timers : nat
}.

(** [new DataProcessor()] *)
Definition create : t := Processor 0 0 [] 0.

Definition emit (p : t) (e : event) : t :=
  Processor (processedCount p) (totalCount p) (emitted p ++ [e]) (timers p).

Definition setTimeout (p : t) : t :=
  Processor (processedCount p) (totalCount p) (emitted p) (S (timers p)).

Definition _processNextChunk (p : t) : t :=
  let p := Processor (processedCount p + 1) (totalCount p) (emitted p) (timers p) in
  let progress := percent (processedCount p) (totalCount p) in
  if processedCount p =? 5 then
    emit p (Failed (Js.Error
      ("Processing failed at item " ++ Js.number_to_string (processedCount p)
         ++ " due to simulated server connection loss.")%string))
  else
    let p :=
      if (Z.rem (processedCount p) 2 =? 0) || (processedCount p =? 1)
      then emit p (Progress (processedCount p) progress)
      else p in
    if processedCount p <? totalCount p then setTimeout p
    else emit p (Finished (totalCount p) "Simulated 50ms total").

Definition startProcessing (p : t) (totalItems : Z) : t :=
  _processNextChunk (Processor 0 totalItems (emitted p) (timers p)).

(** A timer fires: the scheduled call runs. *)
Definition tick (p : t) : t :=
  match timers p with
  | O => p
  | S n =>
      _processNextChunk
        (Processor (processedCount p) (totalCount p) (emitted p) n)
  end.

(** The script: a new processor is started and [n] timers fire. *)
Definition process (totalItems : Z) (n : nat) : t :=
  Nat.iter n tick (startProcessing create totalItems).

End Processor.

End DataProcessor.

(* ===================================================================== *)
(** * The health checker: its configuration

    [parseInt(string, 10)] as the language defines it: white space at the
    start is skipped, a sign is read, and the longest run of decimal digits
    gives the value; without a digit the result is [NaN].

    The numbers of the script are doubles. An integer of magnitude up to
    2^53 is a double and is kept as it is; of a number beyond, which the
    language rounds to a double or takes for an infinity, only the sign is
    kept. Sums and products that stay within 2^53 are exact. *)

Module HealthChecker.

Inductive number : Type :=
| Int (n : Z)                (* an integer, at most 2^53 in magnitude *)
| Beyond (negative : bool)   (* a double of magnitude 2^53 or more *)
| NaN.

(** The double for the integer [z]. *)
Definition of_integer (z : Z) : number :=
  if Z.abs z <=? 2 ^ 53 then Int z else Beyond (z <? 0).

(** [x * 1000] *)
Definition times_1000 (x : number) : number :=
  match x with
  | Int n => of_integer (n * 1000)
  | Beyond negative => Beyond negative
  | NaN => NaN
  end.

Definition code (c : ascii) : Z := Z.of_N (N_of_ascii c).

Definition is_white_space (c : ascii) : bool :=
  let n := code c in
  ((9 <=? n) && (n <=? 13)) || (n =? 32) || (n =? 160).

Definition is_digit (c : ascii) : bool :=
  let n := code c in (48 <=? n) && (n <=? 57).

Fixpoint trim_start (s : string) : string :=
  match s with
  | String c rest => if is_white_space c then trim_start rest else s
  | EmptyString => s
  end.

(** The value of the longest run of digits [s] starts with, read after the
    digits of value [acc]. *)
Fixpoint digits (acc : Z) (s : string) : Z :=
  match s with
  | String c rest =>
      if is_digit c then digits (10 * acc + (code c - 48)) rest else acc
  | EmptyString => acc
  end.

Definition starts_with_digit (s : string) : bool :=
  match s with
  | String c _ => is_digit c
  | EmptyString => false
  end.

Definition plus : ascii := ascii_of_nat 43.
Definition minus : ascii := ascii_of_nat 45.

(** [parseInt(input, 10)]; an input that is [undefined] reads as the string
    ["undefined"]. *)
Definition parseInt (input : option string) : number :=
  let inputString := default "undefined"%string input in
  let S := trim_start inputString in
  let (sign, S) :=
    match S with
    | String c rest =>
        if Ascii.eqb c minus then (-1, rest)
        else if Ascii.eqb c plus then (1, rest)
        else (1, S)
    | EmptyString => (1, S)
    end in
  if starts_with_digit S then of_integer (sign * digits 0 S) else NaN.

Definition DEFAULT_INTERVAL : Z := 5.

(** [intervalSeconds] after the test [isNaN(...) || ... <= 0], from
    [process.env.CHECK_INTERVAL_SECONDS]. *)
Definition intervalSeconds (CHECK_INTERVAL_SECONDS : option string) : number :=
  match parseInt CHECK_INTERVAL_SECONDS with
  | NaN => Int DEFAULT_INTERVAL
  | Int n => if n <=? 0 then Int DEFAULT_INTERVAL else Int n
  | Beyond negative => if negative then Int DEFAULT_INTERVAL else Beyond false
  end.

Definition intervalMs (CHECK_INTERVAL_SECONDS : option string) : number :=
  times_1000 (intervalSeconds CHECK_INTERVAL_SECONDS).

(** [a || b] on values that are strings or [undefined]: the empty string and
    [undefined] give way. *)
Definition or_else (a b : option string) : option string :=
  match a with
  | Some (String _ _) => a
  | _ => b
  end.

(** [process.argv[2] || process.env.API_URL || 'https://httpbin.org/status/200'] *)
Definition targetUrl (argv2 API_URL : option string) : option string :=
  or_else (or_else argv2 API_URL) (Some "https://httpbin.org/status/200"%string).

End HealthChecker.

(* ===================================================================== *)
(** * Definitions the statements below are written with *)

Definition bytes_of (s : string) : list byte := list_byte_of_string s.

(** The line feed and the carriage return, to write inputs with. *)
Definition nl : string := String (ascii_of_nat 10) "".
Definition cr : string := String (ascii_of_nat 13) "".

(** ** Reading one character at a time

    The same line discipline as [Readline.normalWrite], with every character
    a text of its own: a [\n] closes a line unless it follows a [\r], a
    [\r] closes a line, so does U+2028 or U+2029, any other character joins
    the line under way. *)

Module Scan.

Import Readline.

Fixpoint feed (buf : Js.text) (saw : bool) (s : Js.text)
  : Js.text * bool * list Js.text :=
  match s with
  | [] => (buf, saw, [])
  | c :: rest =>
      if c =? LF then
        if saw then feed buf false rest
        else let '(b, w, ls) := feed [] false rest in (b, w, buf :: ls)
      else if c =? CR then
        let '(b, w, ls) := feed [] true rest in (b, w, buf :: ls)
      else if is_separator c then
        let '(b, w, ls) := feed [] false rest in (b, w, buf :: ls)
      else feed (buf ++ [c]) false rest
  end.

Definition is_empty (s : Js.text) : bool :=
  match s with
  | [] => true
  | _ => false
  end.

(** What [normalWrite] computes from the line buffer, the flag and the
    decoded chunk; on the empty text it keeps the flag. *)
Definition write (buf : Js.text) (saw : bool) (s : Js.text)
  : Js.text * bool * list Js.text :=
  let s' := if saw then skip_LF s else s in
  if has_lineEnding s' then
    let (lines, rest) := split_lines (buf ++ s') in
    (rest, endsWith_CR s', lines)
  else (buf ++ s', saw && is_empty s, []).

Definition prepend (buf : Js.text) (r : list Js.text * Js.text)
  : list Js.text * Js.text :=
  match r with
  | ([], rest) => ([], buf ++ rest)
  | (l :: ls, rest) => ((buf ++ l) :: ls, rest)
  end.

(** The lines of a whole text: those a line ending closes, and the text
    after the last ending when it is not empty. *)
Definition lines_of (s : Js.text) : list Js.text :=
  let '(b, _, ls) := feed [] false s in
  ls ++ if is_empty b then [] else [b].

End Scan.

(** [line.includes('ERROR') || line.includes('CRITICAL')] *)
Definition is_error_line (line : Js.text) : bool :=
  LogProcessor.includes line (Js.chars "ERROR") ||
  LogProcessor.includes line (Js.chars "CRITICAL").

Definition count_errors (lines : list Js.text) : Z :=
  Z.of_nat (length (List.filter is_error_line lines)).

(** The worker before the end of its input. *)
Definition receiving (st : LogProcessor.state) : Prop :=
  LogProcessor.fault st = None /\
  LogProcessor.hash_finalized st = false /\
  LogProcessor.incomingStream_ended st = false /\
  Readline.closed (LogProcessor.rl st) = false /\
  Readline.has_lineEnding (Readline.line_buffer (LogProcessor.rl st)) = false.

(** The worker after it has taken [bytes] in, however they were cut. *)
Definition absorb (st : LogProcessor.state) (bytes : list byte)
  : LogProcessor.state :=
  let (string, decoder) :=
    StringDecoder.write (Readline.decoder (LogProcessor.rl st)) bytes in
  let '(b, w, lines) :=
    Scan.feed (Readline.line_buffer (LogProcessor.rl st))
              (Readline.sawReturn (LogProcessor.rl st))
              string in
  LogProcessor.State
    (Sha256.update (LogProcessor.hash st) bytes)
    (LogProcessor.hash_finalized st)
    (LogProcessor.incomingStream_ended st)
    (Readline.Interface b w (Readline.closed (LogProcessor.rl st)) decoder)
    (LogProcessor.lineCount st + Z.of_nat (length lines))
    (LogProcessor.errorCount st + count_errors lines)
    (LogProcessor.posted st)
    (LogProcessor.fault st).

(** The report of an upload, from its bytes. *)
Definition report_for (bytes : list byte) : Js.value :=
  let lines := Scan.lines_of (Readline.decode bytes) in
  LogProcessor.report_of (Sha256.sha256_hex bytes)
                         (Z.of_nat (length lines)) (count_errors lines).

(** The field [k] of the one report the worker has posted. *)
Definition reported (k : string) (st : LogProcessor.state) : option Js.value :=
  match LogProcessor.posted st with
  | [report] =>
      match Js.get report k with
      | inr v => Some v
      | inl _ => None
      end
  | _ => None
  end.





(** A file system that carries out every call, and an empty disk. *)
Definition no_fail : Server.io := Server.Io (fun _ => None) (fun _ _ => None).
Definition disk0 : Server.fs := Server.Fs ∅ ∅ [].

(** The events of the request, without the turns of the worker. *)
Definition request_side (trace : list Pipeline.event) : list Pipeline.event :=
  List.filter (fun ev => match ev with Pipeline.WorkerTurn => false | _ => true end)
              trace.

(** An upload under way: of the chunks [cs] that have arrived the worker has
    taken some and the others wait, behind them the end message once the
    body has [ended]; or the worker has taken everything and the handler
    has dealt with its report. *)
Definition in_flight (__dirname : string) (os : Server.io) (disk : Server.fs)
  (cs : list (list byte)) (ended : bool) (s : Pipeline.system) : Prop :=
  (exists taken waiting,
      cs = (taken ++ waiting)%list /\
      Pipeline.wrk s = absorb LogProcessor.init (concat taken) /\
      Pipeline.srv s =
        Server.Conn (map LogProcessor.chunk_message waiting ++
                       (if ended then [LogProcessor.end_message] else []))
                    false None disk false) \/
  (ended = true /\
   Server.inbox (Pipeline.srv s) = [] /\
   Pipeline.srv s =
     Server.on_worker_message __dirname os (Server.accept disk)
                              (report_for (concat cs))).

(** A trace is a whole upload of [chunks]: the body arrives chunk after
    chunk and ends, the worker takes its turns at any pace among these
    events, and at the end its queue is empty. *)
Definition whole_upload (__dirname : string) (os : Server.io) (disk : Server.fs)
  (chunks : list (list byte)) (trace : list Pipeline.event) : Prop :=
  request_side trace = (map Pipeline.ReqData chunks ++ [Pipeline.ReqEnd])%list /\
  Server.inbox (Pipeline.srv (Pipeline.serve __dirname os disk trace)) = [].

(** The claim of bounded buffering: some bound holds for every upload and
    every pace of the worker. *)
Definition bounded_buffering (__dirname : string) (os : Server.io) : Prop :=
  exists bound : Z,
    forall (disk : Server.fs) (trace : list Pipeline.event),
      Pipeline.buffered (Pipeline.serve __dirname os disk trace) <= bound.

(** No answer is written, and no handler has thrown, while the worker runs
    and has not reported. *)
Definition unanswered_while_working (s : Pipeline.system) : Prop :=
  Pipeline.running s = true ->
  LogProcessor.posted (Pipeline.wrk s) = [] ->
  Server.res (Pipeline.srv s) = None /\ Server.crashed (Pipeline.srv s) = false.

(** The report the worker posts when its input ends in the state [st]. *)
Definition report_for_state (st : LogProcessor.state) : Js.value :=
  let buf := Readline.line_buffer (LogProcessor.rl st) in
  let last := if Scan.is_empty buf then [] else [buf] in
  LogProcessor.report_of
    (Sha256.digest_hex (LogProcessor.hash st))
    (LogProcessor.lineCount st + Z.of_nat (length last))
    (LogProcessor.errorCount st + count_errors last).

(** The bytes of the chunk messages that come before the first end
    message. *)
Fixpoint body_before_end (messages : list LogProcessor.message) : list byte :=
  match messages with
  | [] => []
  | m :: rest =>
      if String.eqb (LogProcessor.type m) "chunk"
      then (LogProcessor.data m ++ body_before_end rest)%list
      else if String.eqb (LogProcessor.type m) "end" then []
      else body_before_end rest
  end.

Definition has_end (messages : list LogProcessor.message) : bool :=
  existsb (fun m => String.eqb (LogProcessor.type m) "end") messages.

(** The worker after its report. *)
Definition reported_state (st : LogProcessor.state) : Prop :=
  LogProcessor.hash_finalized st = true /\
  LogProcessor.incomingStream_ended st = true.

(** The worker thread of an upload under way: not terminated, and either
    it has taken some of the chunks, the others waiting, or it has taken
    them all and the end message. *)
Definition at_work (cs : list (list byte)) (ended : bool) (s : Pipeline.system)
  : Prop :=
  Server.terminated (Pipeline.srv s) = false /\
  ((exists taken waiting,
       cs = (taken ++ waiting)%list /\
       Pipeline.wrk s = absorb LogProcessor.init (concat taken) /\
       Server.inbox (Pipeline.srv s) =
         (map LogProcessor.chunk_message waiting ++
            (if ended then [LogProcessor.end_message] else []))%list) \/
   (ended = true /\
    Server.inbox (Pipeline.srv s) = [] /\
    Pipeline.wrk s = LogProcessor.analyse cs)).

(** The answer of the [catch] branch to the error [e]. *)
Definition failure_response (e : Js.error) : Server.response :=
  Server.Response (if Js.instanceof_AssertionError e then 400 else 500)
                  "text/plain"
                  ("Failed to process report: " +:+ Js.message e).

(** Where the report of the bytes [B] goes, and what is written there. *)
Definition report_path (__dirname : string) (B : list byte) : string :=
  Server.path_join (Server.REPORTS_DIR __dirname)
                   (Sha256.sha256_hex B +:+ ".json").

Definition report_content (B : list byte) : string :=
  default ""%string (Js.stringify_indent2 (report_for B)).

(** The two calls that persist the report of [B], in their order. *)
Definition persist_calls (__dirname : string) (B : list byte)
  : list Server.fs_call :=
  [Server.Mkdir (Server.REPORTS_DIR __dirname);
   Server.WriteFile (report_path __dirname B) (report_content B)].

(** The files after the persistence of the report of [B] has failed: as
    they were when [mkdir] failed or the file could not be opened; with the
    file of the report cut to the part that was written otherwise. *)
Definition failed_files (__dirname : string) (os : Server.io) (B : list byte)
  (files : gmap string string) : gmap string string :=
  match os (Server.Mkdir (Server.REPORTS_DIR __dirname)) with
  | Some _ => files
  | None =>
      match Server.written os (report_path __dirname B) (report_content B) with
      | Some n =>
          <[report_path __dirname B :=
              String.substring 0 n (report_content B)]> files
      | None => files
      end
  end.

(** The error of the first call that fails, and the calls made until then. *)
Fixpoint first_failure (os : Server.io) (calls : list Server.fs_call)
  : option Js.error :=
  match calls with
  | [] => None
  | call :: rest =>
      match os call with
      | Some e => Some e
      | None => first_failure os rest
      end
  end.

Fixpoint calls_made (os : Server.io) (calls : list Server.fs_call)
  : list Server.fs_call :=
  match calls with
  | [] => []
  | call :: rest =>
      match os call with
      | Some _ => [call]
      | None => call :: calls_made os rest
      end
  end.

(** The ids the cluster has in use are distinct and below the next one it
    hands out. *)
Definition sound (m : Cluster.master) : Prop :=
  List.NoDup (Cluster.workers m) /\
  List.Forall (fun id => (id < Cluster.next_id m)%nat) (Cluster.workers m).

(** The items up to [upto] whose progress the processor announces: the
    first one and the even ones. *)
Definition progress_items (upto : Z) : list Z :=
  List.filter (fun i => (Z.rem i 2 =? 0) || (i =? 1))
              (map Z.of_nat (seq 1 (Z.to_nat upto))).

(** A percentage to run the processor with: the integer nearest to
    [100 * items / total], halves up, for a positive total. *)
Definition nearest_percent (items total : Z) : Js.value :=
  if 0 <? total then Js.Num ((200 * items + total) / (2 * total)) else Js.NaN.

(** The answers of an upload that do not blame the client: the report as
    JSON, or a server error in plain text. *)
Definition upload_answer (r : Server.response) : Prop :=
  (Server.statusCode r = 200 /\ Server.contentType r = "application/json"%string) \/
  (Server.statusCode r = 500 /\ Server.contentType r = "text/plain"%string).

(** The text with every line feed written as carriage return and line
    feed. *)
Fixpoint with_crlf (bytes : list byte) : list byte :=
  match bytes with
  | [] => []
  | b :: rest =>
      if Byte.eqb b x0a then x0d :: x0a :: with_crlf rest
      else b :: with_crlf rest
  end.

(** What the decoder lets go of when a byte breaks the sequence it holds. *)
Definition flushed (d : StringDecoder.t) : Js.text :=
  match StringDecoder.missing d with
  | O => []
  | S _ => StringDecoder.decode_sequence (StringDecoder.buffered d)
  end.

(** A path of the reports directory named after a digest. *)
Definition report_file (__dirname path : string) : Prop :=
  exists h, String.length h = 64%nat /\
            path = Server.path_join (Server.REPORTS_DIR __dirname)
                                    (h +:+ ".json").

(** A file system whose disk is full: directories can be made, a file can
    be opened and nothing can be written to it. *)
Definition disk_full : Server.io :=
  Server.Io
    (fun call =>
       match call with
       | Server.Mkdir _ => None
       | Server.WriteFile _ _ =>
           Some (Js.Error "ENOSPC: no space left on device, write")
       end)
    (fun _ _ => Some 0%nat).

(* ===================================================================== *)
(** * SHA-256 against the published values *)

Example sha256_constants :
  length Sha256.K = 64%nat /\
  nth 0 Sha256.K 0 = 0x428a2f98 /\
  nth 63 Sha256.K 0 = 0xc67178f2 /\
  fst Sha256.H0 = (0x6a09e667, 0xbb67ae85, 0x3c6ef372, 0xa54ff53a,
                   0x510e527f, 0x9b05688c, 0x1f83d9ab).
Proof. vm_compute. repeat split; reflexivity. Qed.

Example sha256_abc :
  Sha256.sha256_hex (bytes_of "abc") =
  "ba7816bf8f01cfea414140de5dae2223b00361a396177a9cb410ff61f20015ad".
Proof. vm_compute. reflexivity. Qed.

Example sha256_two_blocks :
  Sha256.sha256_hex
    (bytes_of "abcdbcdecdefdefgefghfghighijhijkijkljklmklmnlmnomnopnopq") =
  "248d6a61d20638b8e5c026930c3e6039a33ce45964ff2167f6ecedd419db06c1".
Proof. vm_compute. reflexivity. Qed.

(* ===================================================================== *)
(** * Strings *)

#[local] Arguments String.append !s1 s2 : simpl nomatch.

Section Strings.

Local Open Scope string_scope.

Lemma append_empty_r (s : string) : s ++ "" = s.
Proof. induction s as [|c s IH]; simpl; [reflexivity | now rewrite IH]. Qed.

Lemma append_assoc (a b c : string) : (a ++ b) ++ c = a ++ (b ++ c).
Proof. induction a as [|x a IH]; simpl; [reflexivity | now rewrite IH]. Qed.

Lemma length_append (a b : string) :
  String.length (a ++ b) = (String.length a + String.length b)%nat.
Proof. induction a as [|x a IH]; simpl; [reflexivity | now rewrite IH]. Qed.

End Strings.

(* ===================================================================== *)
(** * The decoder *)

Section Decoder.

Import StringDecoder.

(** The decoder takes the bytes one by one: how they are cut into chunks
    changes neither the text let through nor what is held back. *)
Lemma write_app (d : t) (a b : list byte) :
  write d (a ++ b) =
  let (t1, d1) := write d a in
  let (t2, d2) := write d1 b in
  (t1 ++ t2, d2).
Proof.
  revert d. induction a as [|x a IH]; intros d; cbn [write app].
  - destruct (write d b). reflexivity.
  - destruct (step d x) as [out d1]. rewrite IH.
    destruct (write d1 a) as [t1 d2]. destruct (write d2 b) as [t2 d3].
    now rewrite List.app_assoc.
Qed.

End Decoder.

(* ===================================================================== *)
(** * The line discipline of [readline] *)

Section LineDiscipline.

Import Readline Scan.

Lemma plain_head (c : Z) (s : Js.text) :
  has_lineEnding (c :: s) = false ->
  (c =? LF) = false /\ (c =? CR) = false /\ is_separator c = false /\
  has_lineEnding s = false.
Proof.
  cbn [has_lineEnding]. intros H.
  apply orb_false_elim in H as [H Hs].
  apply orb_false_elim in H as [H Hsep].
  apply orb_false_elim in H as [Hcr Hlf]. auto.
Qed.

Lemma has_lineEnding_app (a b : Js.text) :
  has_lineEnding (a ++ b) = has_lineEnding a || has_lineEnding b.
Proof.
  induction a as [|c a IH]; cbn [has_lineEnding app]; [reflexivity |].
  rewrite IH. now rewrite !orb_assoc.
Qed.

Lemma split_lines_plain (s : Js.text) :
  has_lineEnding s = false -> split_lines s = ([], s).
Proof.
  induction s as [|c s IH]; [reflexivity |].
  intros H. destruct (plain_head _ _ H) as (Hlf & Hcr & Hsep & Hs).
  cbn [split_lines]. rewrite Hlf, Hcr, Hsep, (IH Hs). reflexivity.
Qed.

Lemma endsWith_CR_plain (s : Js.text) :
  has_lineEnding s = false -> endsWith_CR s = false.
Proof.
  induction s as [|c s IH]; [reflexivity |].
  intros H. destruct (plain_head _ _ H) as (Hlf & Hcr & Hsep & Hs).
  destruct s; [exact Hcr | exact (IH Hs)].
Qed.

Lemma endsWith_CR_cons (c : Z) (s : Js.text) :
  is_empty s = false -> endsWith_CR (c :: s) = endsWith_CR s.
Proof. destruct s; [discriminate | reflexivity]. Qed.

Lemma endsWith_CR_app (a b : Js.text) :
  is_empty b = false -> endsWith_CR (a ++ b) = endsWith_CR b.
Proof.
  intros Hb. induction a as [|c a IH]; [reflexivity |].
  cbn [app]. rewrite <- IH. apply endsWith_CR_cons.
  destruct a; [exact Hb | reflexivity].
Qed.

Lemma has_lineEnding_nonempty (s : Js.text) :
  has_lineEnding s = true -> is_empty s = false.
Proof. destruct s; [discriminate | reflexivity]. Qed.

Lemma prepend_cons_first (c : Z) (buf : Js.text)
      (r : list Js.text * Js.text) :
  cons_first c (prepend buf r) = prepend (c :: buf) r.
Proof. destruct r as [[|l ls] rest]; reflexivity. Qed.

(** The text before the first line ending joins the first line. *)
Lemma split_lines_app (buf s : Js.text) :
  has_lineEnding buf = false ->
  split_lines (buf ++ s) = prepend buf (split_lines s).
Proof.
  induction buf as [|c buf IH].
  - intros _. cbn [app]. destruct (split_lines s) as [[|l ls] rest]; reflexivity.
  - intros H. destruct (plain_head _ _ H) as (Hlf & Hcr & Hsep & Hs).
    cbn [app split_lines]. rewrite Hlf, Hcr, Hsep, (IH Hs).
    apply prepend_cons_first.
Qed.

Lemma split_lines_rest_plain (s : Js.text) :
  has_lineEnding (snd (split_lines s)) = false.
Proof.
  assert (G : forall n s, (length s <= n)%nat ->
              has_lineEnding (snd (split_lines s)) = false).
  { clear s. induction n as [|n IH]; intros [|c s] Hn;
      try reflexivity; cbn [length] in Hn; try lia.
    cbn [split_lines].
    destruct (c =? LF) eqn:Hlf.
    - specialize (IH s ltac:(lia)).
      destruct (split_lines s); exact IH.
    - destruct (c =? CR) eqn:Hcr.
      + destruct s as [|c' s']; [reflexivity |].
        destruct (c' =? LF).
        * specialize (IH s' ltac:(cbn [length] in Hn; lia)).
          destruct (split_lines s'); exact IH.
        * specialize (IH (c' :: s') ltac:(lia)).
          destruct (split_lines (c' :: s')); exact IH.
      + destruct (is_separator c) eqn:Hsep.
        * specialize (IH s ltac:(lia)).
          destruct (split_lines s); exact IH.
        * specialize (IH s ltac:(lia)).
          destruct (split_lines s) as [[|l ls] rest]; cbn [cons_first snd] in *;
            [cbn [has_lineEnding]; now rewrite Hcr, Hlf, Hsep, IH | exact IH]. }
  apply (G (length s)). lia.
Qed.

Lemma eqb_LF_not_CR (c : Z) : (c =? LF) = true -> (c =? CR) = false.
Proof. intros H. apply Z.eqb_eq in H. subst c. reflexivity. Qed.

(** A character that is no [\r] does not change how the text ends, unless
    it is the last. *)
Lemma endsWith_CR_after (c : Z) (s : Js.text) :
  (c =? CR) = false -> endsWith_CR (c :: s) = endsWith_CR s.
Proof. intros H. destruct s; [exact H | reflexivity]. Qed.

(** What follows a line ending: the rest of the text is cut on its own,
    and the line under way is the first line. *)
Lemma write_after_ending (buf rest : Js.text) :
  (let '(b, w, ls) := write [] false rest in (b, w, buf :: ls)) =
  (let (lines, r) := split_lines rest in
   (r, endsWith_CR rest, (buf ++ []) :: lines)).
Proof.
  unfold write. rewrite app_nil_r. cbn [app].
  destruct (has_lineEnding rest) eqn:Hr.
  - destruct (split_lines rest) as [ls r]. reflexivity.
  - rewrite (split_lines_plain _ Hr), (endsWith_CR_plain _ Hr).
    reflexivity.
Qed.

Lemma has_lineEnding_cons (c : Z) (s : Js.text) :
  has_lineEnding (c :: s) =
  (c =? CR) || (c =? LF) || is_separator c || has_lineEnding s.
Proof. reflexivity. Qed.

Lemma split_lines_cons (c : Z) (rest : Js.text) :
  split_lines (c :: rest) =
  if c =? LF then
    let (ls, r) := split_lines rest in ([] :: ls, r)
  else if c =? CR then
    match rest with
    | c' :: rest' =>
        if c' =? LF then
          let (ls, r) := split_lines rest' in ([] :: ls, r)
        else
          let (ls, r) := split_lines rest in ([] :: ls, r)
    | [] => ([[]], [])
    end
  else if is_separator c then
    let (ls, r) := split_lines rest in ([] :: ls, r)
  else cons_first c (split_lines rest).
Proof. destruct rest; reflexivity. Qed.

Lemma feed_cons (buf : Js.text) (saw : bool) (c : Z) (rest : Js.text) :
  feed buf saw (c :: rest) =
  if c =? LF then
    if saw then feed buf false rest
    else let '(b, w, ls) := feed [] false rest in (b, w, buf :: ls)
  else if c =? CR then
    let '(b, w, ls) := feed [] true rest in (b, w, buf :: ls)
  else if is_separator c then
    let '(b, w, ls) := feed [] false rest in (b, w, buf :: ls)
  else feed (buf ++ [c]) false rest.
Proof. reflexivity. Qed.

(** Reading character by character is [normalWrite] on the whole text. *)
Lemma feed_write (s buf : Js.text) (saw : bool) :
  has_lineEnding buf = false -> feed buf saw s = write buf saw s.
Proof.
  revert buf saw. induction s as [|c rest IH]; intros buf saw Hbuf.
  - unfold write. destruct saw; cbn; now rewrite app_nil_r.
  - rewrite feed_cons. destruct (c =? LF) eqn:Hlf.
    + destruct saw.
      * rewrite (IH _ _ Hbuf). unfold write. cbn [skip_LF]. rewrite Hlf.
        reflexivity.
      * rewrite (IH [] false eq_refl), write_after_ending.
        unfold write. rewrite has_lineEnding_cons, Hlf, orb_true_r.
        cbn [orb]. cbv beta iota.
        rewrite (split_lines_app _ _ Hbuf),
                (endsWith_CR_after _ _ (eqb_LF_not_CR _ Hlf)).
        rewrite split_lines_cons, Hlf.
        destruct (split_lines rest) as [ls r]. reflexivity.
    + assert (Hs : (if saw then skip_LF (c :: rest) else c :: rest)
                   = c :: rest).
      { destruct saw; [cbn [skip_LF]; now rewrite Hlf | reflexivity]. }
      destruct (c =? CR) eqn:Hcr.
      * rewrite (IH [] true eq_refl).
        unfold write at 2. rewrite Hs, has_lineEnding_cons, Hcr.
        cbn [orb]. cbv beta iota. rewrite (split_lines_app _ _ Hbuf).
        destruct rest as [|c' rest'].
        -- cbn. rewrite Hlf, Hcr. cbn. now rewrite app_nil_r.
        -- assert (Hw : write [] true (c' :: rest')
                        = write [] false (if c' =? LF then rest'
                                          else c' :: rest')).
           { unfold write. cbn [skip_LF].
             destruct (c' =? LF); [| cbn [is_empty andb]]; reflexivity. }
           rewrite Hw, write_after_ending.
           rewrite (endsWith_CR_cons c (c' :: rest') eq_refl).
           rewrite (split_lines_cons c), Hlf, Hcr.
           destruct (c' =? LF) eqn:Hlf'.
           ++ rewrite (endsWith_CR_after _ _ (eqb_LF_not_CR _ Hlf')).
              destruct (split_lines rest') as [ls r]. reflexivity.
           ++ destruct (split_lines (c' :: rest')) as [ls r]. reflexivity.
      * destruct (is_separator c) eqn:Hsep.
        -- rewrite (IH [] false eq_refl), write_after_ending.
           unfold write. rewrite Hs, has_lineEnding_cons, Hsep, orb_true_r.
           cbn [orb]. cbv beta iota.
           rewrite (split_lines_app _ _ Hbuf), (endsWith_CR_after _ _ Hcr).
           rewrite split_lines_cons, Hlf, Hcr, Hsep.
           destruct (split_lines rest) as [ls r]. reflexivity.
        -- assert (Hbuf' : has_lineEnding (buf ++ [c]) = false).
           { rewrite has_lineEnding_app, Hbuf, has_lineEnding_cons.
             now rewrite Hcr, Hlf, Hsep. }
           rewrite (IH _ false Hbuf').
           unfold write. rewrite Hs, has_lineEnding_cons, Hcr, Hlf, Hsep.
           rewrite <- List.app_assoc. cbn [orb app is_empty].
           rewrite andb_false_r.
           destruct (has_lineEnding rest) eqn:Hr; [| reflexivity].
           rewrite (endsWith_CR_cons c rest (has_lineEnding_nonempty _ Hr)).
           reflexivity.
Qed.

Lemma feed_app (a b buf : Js.text) (saw : bool) :
  feed buf saw (a ++ b) =
  let '(b1, w1, l1) := feed buf saw a in
  let '(b2, w2, l2) := feed b1 w1 b in
  (b2, w2, l1 ++ l2).
Proof.
  revert buf saw. induction a as [|c a IH]; intros buf saw.
  - cbn [app feed]. destruct (feed buf saw b) as [[b2 w2] l2]. reflexivity.
  - cbn [app]. rewrite !feed_cons.
    assert (Hcut : forall w,
               (let '(b0, w0, ls) := feed [] w (a ++ b) in (b0, w0, buf :: ls)) =
               (let '(b1, w1, l1) :=
                  let '(b0, w0, ls) := feed [] w a in (b0, w0, buf :: ls) in
                let '(b2, w2, l2) := feed b1 w1 b in (b2, w2, l1 ++ l2))).
    { intros w. rewrite IH. destruct (feed [] w a) as [[b1 w1] l1].
      destruct (feed b1 w1 b) as [[b2 w2] l2]. reflexivity. }
    destruct (c =? LF); [destruct saw; [apply IH | apply Hcut] |].
    destruct (c =? CR); [apply Hcut |].
    destruct (is_separator c); [apply Hcut | apply IH].
Qed.

(** The line under way never holds a line ending. *)
Lemma feed_plain (s buf : Js.text) (saw : bool) :
  has_lineEnding buf = false ->
  has_lineEnding (fst (fst (feed buf saw s))) = false.
Proof.
  intros Hbuf. rewrite (feed_write _ _ _ Hbuf). unfold write.
  destruct (has_lineEnding (if saw then skip_LF s else s)) eqn:Hs.
  - pose proof (split_lines_rest_plain
                  (buf ++ (if saw then skip_LF s else s))) as G.
    destruct (split_lines _) as [ls r]. exact G.
  - cbn [fst]. now rewrite has_lineEnding_app, Hbuf, Hs.
Qed.

(** [normalWrite] on a chunk: the decoder lets text through, which is read
    character by character. *)
Lemma normalWrite_feed (r : Readline.t) (chunk : list byte) :
  has_lineEnding (line_buffer r) = false ->
  normalWrite r chunk =
  let (string, d) := StringDecoder.write (decoder r) chunk in
  let '(b, w, ls) := feed (line_buffer r) (sawReturn r) string in
  (Interface b w (closed r) d, ls).
Proof.
  intros Hbuf. unfold normalWrite.
  destruct (StringDecoder.write (decoder r) chunk) as [string d].
  rewrite (feed_write _ _ _ Hbuf). unfold write.
  assert (Hskip : (if sawReturn r && (0 <? length string)%nat
                   then skip_LF string else string) =
                  (if sawReturn r then skip_LF string else string)).
  { destruct (sawReturn r); [| reflexivity]. destruct string; reflexivity. }
  assert (Hsaw : (if sawReturn r && (0 <? length string)%nat
                  then false else sawReturn r) =
                 sawReturn r && is_empty string).
  { destruct (sawReturn r); [| reflexivity]. destruct string; reflexivity. }
  rewrite Hskip, Hsaw.
  destruct (has_lineEnding (if sawReturn r then skip_LF string else string))
    eqn:Hs.
  - rewrite (endsWith_CR_app _ _ (has_lineEnding_nonempty _ Hs)).
    destruct (split_lines _) as [ls rest]. reflexivity.
  - reflexivity.
Qed.

End LineDiscipline.

(* ===================================================================== *)
(** * The worker, chunk after chunk *)

Section Worker.

Import LogProcessor.

Lemma count_errors_cons (l : Js.text) (ls : list Js.text) :
  count_errors (l :: ls) = (if is_error_line l then 1 else 0) + count_errors ls.
Proof.
  unfold count_errors. simpl. destruct (is_error_line l); simpl length; lia.
Qed.

Lemma count_errors_app (l1 l2 : list Js.text) :
  count_errors (l1 ++ l2) = count_errors l1 + count_errors l2.
Proof.
  unfold count_errors. rewrite List.filter_app, List.length_app. lia.
Qed.

Lemma count_errors_bounds (ls : list Js.text) :
  0 <= count_errors ls <= Z.of_nat (length ls).
Proof.
  induction ls as [|l ls IH]; [unfold count_errors; simpl; lia |].
  rewrite count_errors_cons. simpl length.
  destruct (is_error_line l); lia.
Qed.

(** The line handler only counts. *)
Lemma fold_on_line (lines : list Js.text) (st : state) :
  fold_left on_line lines st =
  State (hash st) (hash_finalized st) (incomingStream_ended st) (rl st)
        (lineCount st + Z.of_nat (length lines))
        (errorCount st + count_errors lines)
        (posted st) (fault st).
Proof.
  revert st. induction lines as [|l ls IH]; intros st.
  - destruct st. unfold count_errors. simpl. f_equal; lia.
  - simpl fold_left. rewrite IH, count_errors_cons. unfold on_line. simpl.
    fold (is_error_line l). destruct (is_error_line l); f_equal; lia.
Qed.

Lemma update_app (c : Sha256.ctx) (a b : list byte) :
  Sha256.update (Sha256.update c a) b = Sha256.update c (a ++ b).
Proof. unfold Sha256.update. now rewrite fold_left_app. Qed.

(** One chunk message, while the worker receives. *)
Lemma on_chunk (st : state) (chunk : list byte) :
  receiving st -> on_message st (chunk_message chunk) = absorb st chunk.
Proof.
  intros (Hf & Hh & He & Hc & Hb).
  unfold on_message, absorb. rewrite Hf. simpl.
  unfold hash_update. rewrite Hh. simpl. rewrite Hf.
  unfold push. simpl. rewrite He.
  destruct chunk as [|b chunk].
  - simpl. destruct st as [h hf e [lb sr cl d] lc ec p f]. simpl in *.
    unfold count_errors. simpl. subst. f_equal; lia.
  - rewrite (normalWrite_feed _ _ Hb).
    simpl rl. simpl Readline.line_buffer.
    destruct (StringDecoder.write _ _) as [string d].
    destruct (Scan.feed _ _ _) as [[b' w] ls].
    rewrite fold_on_line. reflexivity.
Qed.

Lemma absorb_app (st : state) (a b : list byte) :
  absorb (absorb st a) b = absorb st (a ++ b).
Proof.
  unfold absorb. rewrite write_app.
  destruct (StringDecoder.write _ a) as [t1 d1].
  destruct (Scan.feed _ _ t1) as [[b1 w1] l1] eqn:H1. simpl.
  destruct (StringDecoder.write d1 b) as [t2 d2].
  rewrite feed_app, H1.
  destruct (Scan.feed b1 w1 t2) as [[b2 w2] l2].
  rewrite update_app, count_errors_app, List.length_app.
  f_equal; lia.
Qed.

Lemma absorb_nil (st : state) : absorb st [] = st.
Proof.
  destruct st as [h hf e [lb sr cl d] lc ec p f]. unfold absorb, count_errors.
  simpl. f_equal; lia.
Qed.

Lemma receiving_absorb (st : state) (bytes : list byte) :
  receiving st -> receiving (absorb st bytes).
Proof.
  intros (Hf & Hh & He & Hc & Hb). unfold receiving, absorb.
  destruct (StringDecoder.write _ bytes) as [string d].
  pose proof (feed_plain string _ (Readline.sawReturn (rl st)) Hb) as G.
  destruct (Scan.feed _ _ _) as [[b w] ls]. simpl in *. auto.
Qed.

Lemma receiving_init : receiving init.
Proof. repeat split. Qed.

(** A run of chunk messages takes in their concatenation. *)
Lemma run_chunks (chunks : list (list byte)) (st : state) :
  receiving st ->
  run st (map chunk_message chunks) = absorb st (concat chunks).
Proof.
  revert st. induction chunks as [|c cs IH]; intros st Hst.
  - simpl. now rewrite absorb_nil.
  - simpl. unfold run in *. rewrite (on_chunk _ _ Hst).
    rewrite IH by now apply receiving_absorb.
    apply absorb_app.
Qed.

Lemma analyse_absorb (chunks : list (list byte)) :
  analyse chunks = on_message (absorb init (concat chunks)) end_message.
Proof.
  unfold analyse, run. rewrite fold_left_app. simpl.
  f_equal. apply (run_chunks chunks init receiving_init).
Qed.

(** The end message, while the worker receives: one report. *)
Lemma on_end (st : state) :
  receiving st ->
  let buf := Readline.line_buffer (rl st) in
  let last := if Scan.is_empty buf then [] else [buf] in
  on_message st end_message =
  State (hash st) true true
        (Readline.Interface buf (Readline.sawReturn (rl st)) true
                            (Readline.decoder (rl st)))
        (lineCount st + Z.of_nat (length last))
        (errorCount st + count_errors last)
        (posted st ++
           [report_of (Sha256.digest_hex (hash st))
                      (lineCount st + Z.of_nat (length last))
                      (errorCount st + count_errors last)])
        None.
Proof.
  intros (Hf & Hh & He & Hc & Hb).
  destruct st as [h hf e [lb sr cl d] lc ec p f]. simpl in *. subst.
  unfold on_message, push_null, Readline.onend.
  destruct lb; cbn -[fold_left]; rewrite fold_on_line; reflexivity.
Qed.

(** What the worker posts for an upload, whatever its chunks. *)
Lemma analyse_report (chunks : list (list byte)) :
  posted (analyse chunks) = [report_for (concat chunks)] /\
  fault (analyse chunks) = None.
Proof.
  rewrite analyse_absorb.
  rewrite (on_end _ (receiving_absorb _ _ receiving_init)).
  unfold absorb, report_for, Scan.lines_of, Sha256.sha256_hex,
    Readline.decode. simpl.
  destruct (StringDecoder.write _ _) as [string d]. simpl.
  destruct (Scan.feed [] false _) as [[b w] ls]. simpl.
  split; [| reflexivity].
  rewrite count_errors_app, List.length_app.
  do 2 f_equal. f_equal; lia.
Qed.

End Worker.

Section WorkerCounters.

Import LogProcessor.

(** Every message makes the worker count some lines, possibly none. *)
Lemma on_message_counts (st : state) (m : message) :
  exists lines : list Js.text,
    lineCount (on_message st m) = lineCount st + Z.of_nat (length lines) /\
    errorCount (on_message st m) = errorCount st + count_errors lines.
Proof.
  assert (Hnone : lineCount st = lineCount st + Z.of_nat (@length Js.text []) /\
                  errorCount st = errorCount st + count_errors []).
  { unfold count_errors. simpl. lia. }
  unfold on_message.
  destruct (fault st) eqn:Hf; [exists []; exact Hnone |].
  destruct (String.eqb (type m) "chunk").
  - unfold hash_update.
    destruct (hash_finalized st); simpl; [exists []; exact Hnone |].
    rewrite Hf. unfold push. simpl.
    destruct (incomingStream_ended st); [exists []; exact Hnone |].
    destruct (data m) as [|b bs]; [exists []; exact Hnone |].
    destruct (Readline.normalWrite (rl st) (b :: bs)) as [r lines].
    exists lines. rewrite fold_on_line. simpl. auto.
  - destruct (String.eqb (type m) "end"); [| exists []; exact Hnone].
    unfold push_null.
    destruct (incomingStream_ended st); [exists []; exact Hnone |].
    destruct (Readline.onend _) as [[r lines] close].
    exists lines. rewrite fold_on_line.
    destruct close; [| simpl; auto].
    unfold on_close. simpl. destruct (hash_finalized st); simpl; auto.
Qed.

End WorkerCounters.

(* ===================================================================== *)
(** * The analysis worker: statements *)

Section WorkerClaims.

Import LogProcessor.
Local Open Scope string_scope.

(** C3. Chunk-boundary invariance: for every byte sequence [B] and every
    cut of [B] into a list of chunks, the worker fed the chunks in order
    and then the end message posts the same single report (same
    [finalHash], [lineCount] and [errorCount]) as the worker fed [B] as
    one chunk and then the end message. *)
Theorem chunk_boundary_invariance (B : list byte) (chunks : list (list byte)) :
  concat chunks = B ->
  posted (analyse chunks) = posted (analyse [B]) /\
  posted (analyse chunks) = [report_for B] /\
  reported "finalHash" (analyse chunks) = Some (Js.Str (Sha256.sha256_hex B)).
Proof.
  intros HB.
  destruct (analyse_report chunks) as [Hc _].
  destruct (analyse_report [B]) as [Hone _].
  simpl concat in Hone. rewrite app_nil_r in Hone. rewrite HB in Hc.
  repeat split.
  - now rewrite Hc, Hone.
  - exact Hc.
  - unfold reported. rewrite Hc. reflexivity.
Qed.

Lemma chunk_boundary_invariance_witness :
  let B := (bytes_of ("ok" ++ cr ++ nl) ++ [xc3; xa9] ++
            bytes_of " ERROR x")%list in
  let chunks := [bytes_of ("ok" ++ cr); [];
                 (bytes_of nl ++ [xc3])%list;
                 (xa9 :: bytes_of " ERR")%list; bytes_of "OR x"] in
  concat chunks = B /\
  posted (analyse chunks) = posted (analyse [B]) /\
  posted (analyse chunks) = [report_for B] /\
  reported "finalHash" (analyse chunks) = Some (Js.Str (Sha256.sha256_hex B)).
Proof.
  split; [reflexivity |].
  apply (chunk_boundary_invariance
           (bytes_of ("ok" ++ cr ++ nl) ++ [xc3; xa9] ++
            bytes_of " ERROR x")%list).
  reflexivity.
Defined.

(** C4. The line counts of the examples: the text [a\nb\nc] has 3 lines,
    and so has [a\nb\nc\n] (nothing is counted after a closing line
    ending, a last line without one is counted); the four lines [ok],
    [ERROR x], [CRITICAL y], [ok] give [lineCount] 4 and [errorCount] 2,
    with or without a line ending after the last. *)
Theorem line_count_examples :
  reported "lineCount" (analyse [bytes_of ("a" ++ nl ++ "b" ++ nl ++ "c")])
    = Some (Js.Num 3) /\
  reported "lineCount" (analyse [bytes_of ("a" ++ nl ++ "b" ++ nl ++ "c" ++ nl)])
    = Some (Js.Num 3) /\
  (let log := "ok" ++ nl ++ "ERROR x" ++ nl ++ "CRITICAL y" ++ nl ++ "ok" in
   reported "lineCount" (analyse [bytes_of log]) = Some (Js.Num 4) /\
   reported "errorCount" (analyse [bytes_of log]) = Some (Js.Num 2) /\
   reported "lineCount" (analyse [bytes_of (log ++ nl)]) = Some (Js.Num 4) /\
   reported "errorCount" (analyse [bytes_of (log ++ nl)]) = Some (Js.Num 2)).
Proof. vm_compute. repeat split; reflexivity. Qed.

(** C8. The empty upload: after no chunk message and one end message the
    worker has posted exactly one message, a success report with
    [lineCount] 0, [errorCount] 0 and [finalHash] the hex SHA-256 digest of
    the empty byte string, and has not thrown. *)
Theorem empty_upload_report :
  posted (run init [end_message]) =
    [Js.Obj [("status", Js.Str "success");
             ("finalHash", Js.Str (Sha256.sha256_hex []));
             ("lineCount", Js.Num 0);
             ("errorCount", Js.Num 0)]] /\
  Sha256.sha256_hex [] =
    "e3b0c44298fc1c149afbf4c8996fb92427ae41e4649b934ca495991b7852b855" /\
  fault (run init [end_message]) = None.
Proof. vm_compute. repeat split; reflexivity. Qed.

(** C9. The counters: both start at 0; every line handled adds exactly 1
    to [lineCount] and at most 1 to [errorCount]; no message makes either
    counter smaller; and after every sequence of messages
    [0 <= errorCount <= lineCount]. *)
Theorem counters_invariant :
  (lineCount init = 0 /\ errorCount init = 0) /\
  (forall st line,
      lineCount (on_line st line) = lineCount st + 1 /\
      errorCount st <= errorCount (on_line st line) <= errorCount st + 1) /\
  (forall st m,
      lineCount st <= lineCount (on_message st m) /\
      errorCount st <= errorCount (on_message st m)) /\
  (forall messages,
      0 <= errorCount (run init messages) <= lineCount (run init messages)).
Proof.
  split; [split; reflexivity |]. split; [| split].
  - intros st line. unfold on_line. simpl.
    destruct (includes line (Js.chars "ERROR") ||
              includes line (Js.chars "CRITICAL")); lia.
  - intros st m. destruct (on_message_counts st m) as (lines & Hl & He).
    pose proof (count_errors_bounds lines). lia.
  - intros messages. unfold run.
    assert (G : forall ms st, 0 <= errorCount st <= lineCount st ->
                  0 <= errorCount (fold_left on_message ms st)
                    <= lineCount (fold_left on_message ms st)).
    { induction ms as [|m ms IH]; intros st Hst; [exact Hst |].
      simpl. apply IH.
      destruct (on_message_counts st m) as (lines & Hl & He).
      pose proof (count_errors_bounds lines). lia. }
    apply G. simpl. lia.
Qed.

(** C10. A message whose type is neither [chunk] nor [end] changes
    nothing: the hash context, the counters, the stream and the interface
    stay as they are, and nothing is posted. *)
Theorem other_message_noop (st : state) (m : message) :
  type m <> "chunk" -> type m <> "end" -> on_message st m = st.
Proof.
  intros Hc He. unfold on_message.
  apply String.eqb_neq in Hc, He. rewrite Hc, He.
  destruct (fault st); reflexivity.
Qed.

Lemma other_message_noop_witness :
  let st := run init [chunk_message (bytes_of "ERROR half a line")] in
  let m := Message "ping" (bytes_of "ignored") in
  on_message st m = st /\ lineCount st = 0 /\ posted (on_message st m) = [].
Proof.
  split.
  - apply other_message_noop; discriminate.
  - split; reflexivity.
Defined.

End WorkerClaims.

(* ===================================================================== *)
(** * The report handler *)

Section ReportHandler.

Import Server.
Local Open Scope string_scope.

Lemma digest_hex_length (c : Sha256.ctx) :
  String.length (Sha256.digest_hex c) = 64%nat.
Proof.
  unfold Sha256.digest_hex, Sha256.hex_of_words.
  destruct (Sha256.finish c) as [[[[[[[a b] d] e] f] g] h] i].
  reflexivity.
Qed.



Variable __dirname : string.
Variable os : io.



Lemma catch_res (c : conn) (e : Js.error) :
  res c = None ->
  res (catch c e) =
  Some (Response (if Js.instanceof_AssertionError e then 400 else 500)
                 "text/plain"
                 ("Failed to process report: " ++ Js.message e)).
Proof. intros H. unfold catch, respond. rewrite H. reflexivity. Qed.

End ReportHandler.

Section UploadRun.

Import LogProcessor Server Pipeline.

Variable __dirname : string.
Variable os : io.

Local Abbreviation step := (Pipeline.step __dirname os).

Lemma take_take (c : conn) (r1 r2 : list message) :
  take (take c r1) r2 = take c r2.
Proof. reflexivity. Qed.

(** The body arrives: every chunk joins the queue. *)
Lemma body_queued (chunks : list (list byte)) (s : system) :
  fold_left step (map ReqData chunks) s =
  System (take (srv s) (inbox (srv s) ++ map chunk_message chunks)) (wrk s).
Proof.
  revert s. induction chunks as [|ch chunks IH]; intros [c w]; simpl.
  - rewrite app_nil_r. destruct c; reflexivity.
  - rewrite IH. simpl. unfold take. simpl.
    now rewrite <- List.app_assoc.
Qed.

(** A turn of the worker on a chunk message. *)
Lemma turn_takes_chunk (ch : list byte) (rest : list message)
      (c : conn) (st : state) :
  receiving st ->
  terminated c = false ->
  inbox c = chunk_message ch :: rest ->
  step (System c st) WorkerTurn = System (take c rest) (absorb st ch).
Proof.
  intros Hst Ht Hin.
  unfold Pipeline.step, running. simpl. rewrite Ht, Hin.
  destruct Hst as (Hf & Hst). rewrite Hf. simpl.
  rewrite (on_chunk st ch (conj Hf Hst)).
  assert (Hp : posted (absorb st ch) = posted st).
  { unfold absorb. destruct (StringDecoder.write _ _) as [? ?].
          destruct (Scan.feed _ _ _) as [[? ?] ?]. reflexivity. }
  assert (Hfa : fault (absorb st ch) = None).
  { unfold absorb. destruct (StringDecoder.write _ _) as [? ?].
          destruct (Scan.feed _ _ _) as [[? ?] ?]. exact Hf. }
  rewrite Hp, skipn_all. unfold signal, deliver. rewrite Hfa.
  reflexivity.
Qed.

(** The worker takes the chunk messages at the head of its queue. *)
Lemma turns_take_chunks (chunks : list (list byte)) (rest : list message)
      (c : conn) (st : state) :
  receiving st ->
  terminated c = false ->
  inbox c = (map chunk_message chunks ++ rest)%list ->
  fold_left step (repeat WorkerTurn (length chunks)) (System c st) =
  System (take c rest) (absorb st (concat chunks)).
Proof.
  revert c st. induction chunks as [|ch chunks IH]; intros c st Hst Ht Hin.
  - simpl in *. rewrite absorb_nil. destruct c; simpl in *. now subst.
  - cbn [length repeat fold_left]. simpl in Hin.
    rewrite (turn_takes_chunk ch _ c st Hst Ht Hin).
    rewrite (IH (take c (map chunk_message chunks ++ rest)) (absorb st ch)
                (receiving_absorb _ _ Hst) Ht eq_refl).
    rewrite take_take, absorb_app. reflexivity.
Qed.

(** The worker takes the end message: its report reaches the handler. *)
Lemma turn_takes_end (rest : list message) (c : conn) (st : state) :
  receiving st ->
  posted st = [] ->
  terminated c = false ->
  inbox c = end_message :: rest ->
  exists st',
    step (System c st) WorkerTurn =
    System (on_worker_message __dirname os (take c rest)
              (report_of (Sha256.digest_hex (hash st))
                 (lineCount st + Z.of_nat (length
                    (if Scan.is_empty (Readline.line_buffer (rl st))
                     then [] else [Readline.line_buffer (rl st)])))
                 (errorCount st + count_errors
                    (if Scan.is_empty (Readline.line_buffer (rl st))
                     then [] else [Readline.line_buffer (rl st)]))))
           st'.
Proof.
  intros Hst Hp Ht Hin.
  unfold Pipeline.step, running. simpl. rewrite Ht, Hin.
  pose proof (on_end st Hst) as He. simpl in He.
  destruct Hst as (Hf & _). rewrite Hf. simpl.
  rewrite He, Hp. simpl. eexists. reflexivity.
Qed.

(** The report the worker posts at the end, from the bytes it took in. *)
Lemma report_of_absorbed (B : list byte) :
  let st := absorb init B in
  let last := if Scan.is_empty (Readline.line_buffer (rl st))
              then [] else [Readline.line_buffer (rl st)] in
  report_of (Sha256.digest_hex (hash st))
            (lineCount st + Z.of_nat (length last))
            (errorCount st + count_errors last) =
  report_for B.
Proof.
  unfold report_for, absorb, Scan.lines_of, Sha256.sha256_hex,
    Readline.decode.
  simpl. destruct (StringDecoder.write _ _) as [string d]. simpl.
  destruct (Scan.feed [] false _) as [[b w] ls]. simpl.
  rewrite count_errors_app, List.length_app.
  f_equal; lia.
Qed.

Lemma on_worker_message_inbox (c : conn) (report : Js.value) :
  inbox (on_worker_message __dirname os c report) = inbox c.
Proof.
  destruct c as [ib t r d cr].
  unfold on_worker_message. destruct (validate report) as [e | h].
  - unfold catch, respond. simpl. destruct r; reflexivity.
  - unfold store_and_respond, mkdir, writeFile, catch, respond, with_disk.
    simpl. destruct (os (Mkdir _)); simpl.
    + destruct r; reflexivity.
    + destruct (Js.stringify_indent2 report); simpl.
      * destruct (os (WriteFile _ _)); simpl; destruct r; reflexivity.
      * destruct r; reflexivity.
Qed.

(** A turn of the worker keeps an upload in flight. *)
Lemma in_flight_turn (disk : fs) (cs : list (list byte)) (ended : bool)
      (s : system) :
  in_flight __dirname os disk cs ended s ->
  in_flight __dirname os disk cs ended (step s WorkerTurn).
Proof.
  destruct s as [c w].
  intros [(taken & waiting & Hcs & Hw & Hc) | (He & Hin & Hc)].
  - simpl in Hw, Hc. subst w c.
    assert (Hrec : receiving (absorb init (concat taken)))
      by apply receiving_absorb, receiving_init.
    destruct waiting as [|ch waiting].
    + destruct ended.
      * right.
        destruct (turn_takes_end [] (Conn [end_message] false None disk false)
                    (absorb init (concat taken)) Hrec) as [st' Hs];
          try reflexivity.
        { unfold absorb. destruct (StringDecoder.write _ _) as [? ?].
          destruct (Scan.feed _ _ _) as [[? ?] ?]. reflexivity. }
        simpl app. rewrite Hs. simpl srv.
        rewrite (report_of_absorbed (concat taken)).
        rewrite app_nil_r in Hcs. subst cs.
        split; [reflexivity |]. split; [| reflexivity].
        apply on_worker_message_inbox.
      * left. exists taken, []. simpl.
        unfold running. simpl.
        destruct Hrec as (Hf & _). rewrite Hf. simpl. auto.
    + left. exists (taken ++ [ch])%list, waiting.
      simpl map. simpl app.
      rewrite (turn_takes_chunk ch
                 (map chunk_message waiting ++
                    (if ended then [end_message] else []))
                 (Conn (chunk_message ch :: map chunk_message waiting ++
                          (if ended then [end_message] else []))
                       false None disk false)
                 _ Hrec eq_refl eq_refl). simpl.
      rewrite concat_app. simpl. rewrite app_nil_r, absorb_app.
      rewrite <- List.app_assoc. simpl. auto.
  - right. simpl in Hin, Hc. simpl. rewrite Hin.
    destruct (running (System c w)); simpl; auto.
Qed.

(** However the turns of the worker fall among the events of the request,
    an upload whose body arrives chunk after chunk stays in flight. *)
Lemma in_flight_serve (disk : fs) (trace : list event) :
  forall (cs : list (list byte)) (ended : bool),
    request_side trace =
      (map ReqData cs ++ if ended then [ReqEnd] else [])%list ->
    in_flight __dirname os disk cs ended (serve __dirname os disk trace).
Proof.
  unfold serve.
  induction trace as [|ev trace IH] using rev_ind; intros cs ended Hreq.
  - destruct cs; [| discriminate]. destruct ended; [discriminate |].
    left. exists [], []. simpl. rewrite absorb_nil. auto.
  - rewrite fold_left_app. simpl fold_left.
    unfold request_side in Hreq. rewrite List.filter_app in Hreq.
    fold (request_side trace) in Hreq.
    destruct ev as [ch | | | | e]; simpl in Hreq.
    + destruct ended.
      { apply app_inj_tail in Hreq as [_ Habs]. discriminate. }
      rewrite app_nil_r in Hreq.
      destruct cs as [|c0 cs0] using rev_ind.
      { destruct (request_side trace); discriminate. }
      clear IHcs0. rewrite map_app in Hreq. simpl in Hreq.
      apply app_inj_tail in Hreq as [Hreq Hch]. injection Hch as <-.
      specialize (IH cs0 false). rewrite app_nil_r in IH.
      destruct (IH Hreq) as [(taken & waiting & Hcs & Hw & Hc) | (He & _)];
        [| discriminate].
      left. exists taken, (waiting ++ [ch])%list.
      destruct (fold_left _ trace _) as [c w]. simpl in *. subst.
      rewrite <- List.app_assoc. split; [reflexivity |]. split; [reflexivity |].
      unfold on_req_data, postMessage. simpl.
      rewrite !app_nil_r, map_app. reflexivity.
    + destruct ended.
      2: { rewrite app_nil_r in Hreq.
           destruct cs as [|c0 cs0] using rev_ind.
           - destruct (request_side trace); discriminate.
           - rewrite map_app in Hreq. simpl in Hreq.
             apply app_inj_tail in Hreq as [_ Habs]. discriminate. }
      apply app_inj_tail in Hreq as [Hreq _].
      specialize (IH cs false). rewrite app_nil_r in IH.
      destruct (IH Hreq) as [(taken & waiting & Hcs & Hw & Hc) | (He & _)];
        [| discriminate].
      left. exists taken, waiting.
      destruct (fold_left _ trace _) as [c w]. simpl in *. subst.
      split; [reflexivity |]. split; [reflexivity |].
      unfold on_req_end, postMessage. simpl.
      rewrite !app_nil_r. reflexivity.
    + exfalso. destruct ended.
      * apply app_inj_tail in Hreq as [_ Habs]. discriminate.
      * rewrite app_nil_r in Hreq.
        destruct cs as [|c0 cs0] using rev_ind.
        -- destruct (request_side trace); discriminate.
        -- rewrite map_app in Hreq. simpl in Hreq.
           apply app_inj_tail in Hreq as [_ Habs]. discriminate.
    + rewrite app_nil_r in Hreq. apply in_flight_turn, IH, Hreq.
    + exfalso. destruct ended.
      * apply app_inj_tail in Hreq as [_ Habs]. discriminate.
      * rewrite app_nil_r in Hreq.
        destruct cs as [|c0 cs0] using rev_ind.
        -- destruct (request_side trace); discriminate.
        -- rewrite map_app in Hreq. simpl in Hreq.
           apply app_inj_tail in Hreq as [_ Habs]. discriminate.
Qed.

(** One whole upload hands the handler the report of its bytes. *)
Lemma upload_report (disk : fs) (chunks : list (list byte)) :
  upload __dirname os disk chunks =
  on_worker_message __dirname os (accept disk) (report_for (concat chunks)).
Proof.
  unfold upload, serve, upload_trace.
  cbn [repeat]. rewrite repeat_cons, !fold_left_app, body_queued.
  cbn [fold_left].
  set (c := on_req_end (take (srv (start disk))
              (inbox (srv (start disk)) ++ map chunk_message chunks))).
  assert (Hq : step (System (take (srv (start disk))
                       (inbox (srv (start disk)) ++ map chunk_message chunks))
                       (wrk (start disk))) ReqEnd
               = System c init) by reflexivity.
  rewrite Hq.
  rewrite (turns_take_chunks chunks [end_message] c init receiving_init
             eq_refl eq_refl).
  destruct (turn_takes_end [] (take c [end_message])
               (absorb init (concat chunks))) as [st' Hs];
    try reflexivity.
  - apply receiving_absorb, receiving_init.
  - unfold absorb. destruct (StringDecoder.write _ _) as [? ?].
          destruct (Scan.feed _ _ _) as [[? ?] ?]. reflexivity.
  - rewrite Hs. simpl srv. f_equal. apply report_of_absorbed.
Qed.

(** The pace of the worker does not matter: once the body has arrived
    whole and the queue of the worker is empty, the request stands as after
    the upload in which the worker waits for the whole body. *)
Lemma schedule_independence (disk : fs) (chunks : list (list byte))
      (trace : list event) :
  request_side trace = (map ReqData chunks ++ [ReqEnd])%list ->
  inbox (srv (serve __dirname os disk trace)) = [] ->
  srv (serve __dirname os disk trace) = upload __dirname os disk chunks.
Proof.
  intros Hreq Hempty.
  destruct (in_flight_serve disk trace chunks true Hreq)
    as [(taken & waiting & _ & _ & Hc) | (_ & _ & Hc)].
  - rewrite Hc in Hempty. simpl in Hempty.
    destruct (map chunk_message waiting); discriminate.
  - rewrite upload_report. exact Hc.
Qed.

End UploadRun.

Section AcceptedReport.

Import Server.

Lemma serialize_object (gap indent : string) (props : list (string * Js.value)) :
  exists s, Js.serialize gap indent (Js.Obj props) = Some (String "{" s).
Proof.
  simpl.
  match goal with
  | |- context [match ?m with [] => _ | _ :: _ => _ end] => destruct m
  end.
  - eexists. reflexivity.
  - destruct (String.eqb gap ""); eexists; reflexivity.
Qed.

Lemma validate_report_of (h : string) (lc ec : Z) :
  (10 < String.length h)%nat ->
  validate (LogProcessor.report_of h lc ec) = inr h.
Proof.
  intros Hlen. unfold validate, LogProcessor.report_of. simpl.
  assert (Hz : (10 <? Z.of_nat (String.length h)) = true)
    by (apply Z.ltb_lt; lia).
  rewrite Hz. reflexivity.
Qed.

Variable __dirname : string.
Variable os : io.
Hypothesis os_works : forall call, os call = None.

(** What the handler does with a report of the worker when the file
    system works. *)
Lemma accepted_report (c : conn) (h : string) (lc ec : Z) :
  res c = None ->
  (10 < String.length h)%nat ->
  let reportPath := path_join (REPORTS_DIR __dirname) (h +:+ ".json") in
  exists content body,
    Js.stringify_indent2 (LogProcessor.report_of h lc ec) = Some content /\
    Js.stringify
      (Js.Obj [("status", Js.Str "success"); ("finalHash", Js.Str h);
               ("lineCount", Js.Num lc); ("errorCount", Js.Num ec);
               ("reportPath", Js.Str reportPath)]) = Some body /\
    on_worker_message __dirname os c (LogProcessor.report_of h lc ec) =
    Conn (inbox c) (terminated c)
         (Some (Response 200 "application/json" body))
         (Fs ({[REPORTS_DIR __dirname]} ∪ dirs (disk c))
             (<[reportPath := content]> (files (disk c)))
             (calls (disk c) ++ [Mkdir (REPORTS_DIR __dirname);
                                 WriteFile reportPath content]))
         (crashed c).
Proof.
  intros Hres Hlen reportPath.
  destruct (serialize_object "  " "" (Js.own_props (LogProcessor.report_of h lc ec)))
    as [content Hcontent].
  destruct (serialize_object "" ""
              [("status", Js.Str "success"); ("finalHash", Js.Str h);
               ("lineCount", Js.Num lc); ("errorCount", Js.Num ec);
               ("reportPath", Js.Str reportPath)]) as [body Hbody].
  exists (String "{" content), (String "{" body).
  split; [exact Hcontent |]. split; [exact Hbody |].
  unfold on_worker_message. rewrite (validate_report_of _ _ _ Hlen).
  destruct c as [ib t r d cr]. simpl in Hres. subst r.
  unfold store_and_respond, mkdir. rewrite os_works.
  change (Js.stringify_indent2 (LogProcessor.report_of h lc ec))
    with (Js.serialize "  " "" (Js.Obj (Js.own_props (LogProcessor.report_of h lc ec)))).
  rewrite Hcontent. unfold writeFile.
  cbn [with_disk disk res inbox terminated crashed dirs files calls].
  rewrite os_works.
  cbn [with_disk disk res inbox terminated crashed dirs files calls].
  change (Js.Obj (Js.set_prop "reportPath"
                    (Js.Str (path_join (REPORTS_DIR __dirname) (h +:+ ".json")))
                    (Js.own_props (LogProcessor.report_of h lc ec))))
    with (Js.Obj [("status", Js.Str "success"); ("finalHash", Js.Str h);
                  ("lineCount", Js.Num lc); ("errorCount", Js.Num ec);
                  ("reportPath", Js.Str reportPath)]).
  unfold Js.stringify in *. rewrite Hbody.
  unfold respond. cbn [res inbox terminated disk crashed dirs files calls].
  rewrite <- List.app_assoc. reflexivity.
Qed.

End AcceptedReport.

(* ===================================================================== *)
(** * The request server: statements *)

Section ServerClaims.

Import Server.




(** C2, as the code has it. When the file system works, every upload,
    at whatever pace the worker takes its turns, is answered 200 with
    content type [application/json] and, as body, the JSON text of an object
    with the fields [status], [finalHash], [lineCount], [errorCount] and
    [reportPath], in this order; every assertion of the validation that
    fails is answered 400 with content type [text/plain] and the body
    [Failed to process report: ] followed by the message of the
    assertion. *)
Theorem response_bodies (__dirname : string) (os : io) :
  (forall call, os call = None) ->
  (forall (disk : fs) (chunks : list (list byte)) (trace : list Pipeline.event),
      whole_upload __dirname os disk chunks trace ->
      let B := concat chunks in
      let lines := Scan.lines_of (Readline.decode B) in
      let finalHash := Sha256.sha256_hex B in
      let reportPath :=
        path_join (REPORTS_DIR __dirname) (finalHash +:+ ".json") in
      exists body,
        res (Pipeline.srv (Pipeline.serve __dirname os disk trace)) =
          Some (Response 200 "application/json" body) /\
        Js.stringify
          (Js.Obj [("status", Js.Str "success");
                   ("finalHash", Js.Str finalHash);
                   ("lineCount", Js.Num (Z.of_nat (length lines)));
                   ("errorCount", Js.Num (count_errors lines));
                   ("reportPath", Js.Str reportPath)]) = Some body) /\
  (forall (c : conn) (report : Js.value) (message : string),
      res c = None ->
      validate report = inl (Js.AssertionError message) ->
      res (on_worker_message __dirname os c report) =
        Some (Response 400 "text/plain"
                       ("Failed to process report: " +:+ message))).
Proof.
  intros Hos. split.
  - intros disk chunks trace [Hreq Hempty] B lines finalHash reportPath.
    rewrite (schedule_independence _ _ _ _ _ Hreq Hempty), upload_report.
    destruct (accepted_report __dirname os Hos (accept disk) finalHash
                (Z.of_nat (length lines)) (count_errors lines) eq_refl)
      as (content & body & _ & Hbody & Hrun).
    { unfold finalHash, Sha256.sha256_hex. rewrite digest_hex_length. lia. }
    exists body. split; [| exact Hbody].
    unfold report_for. fold B. fold lines. fold finalHash.
    rewrite Hrun. reflexivity.
  - intros c report message Hres Hv.
    unfold on_worker_message. rewrite Hv.
    now rewrite (catch_res _ _ Hres).
Qed.

Lemma response_bodies_witness :
  let chunks := [bytes_of "ok"; bytes_of (nl +:+ "ERROR x")] in
  let trace := [Pipeline.ReqData (bytes_of "ok"); Pipeline.WorkerTurn;
                Pipeline.ReqData (bytes_of (nl +:+ "ERROR x"));
                Pipeline.ReqEnd; Pipeline.WorkerTurn; Pipeline.WorkerTurn] in
  ((forall call, no_fail call = None) /\
   whole_upload "/srv/app" no_fail disk0 chunks trace) /\
  (exists body,
      res (Pipeline.srv (Pipeline.serve "/srv/app" no_fail disk0 trace)) =
        Some (Response 200 "application/json" body)) /\
  res (on_worker_message "/srv/app" no_fail (accept disk0)
         (Js.Obj [("status", Js.Str "error")])) =
    Some (Response 400 "text/plain"
            "Failed to process report: Worker report status not success").
Proof.
  intros chunks trace.
  assert (Hwhole : whole_upload "/srv/app" no_fail disk0 chunks trace).
  { split; [reflexivity | vm_compute; reflexivity]. }
  split; [split; [reflexivity | exact Hwhole] |].
  destruct (response_bodies "/srv/app" no_fail (fun _ => eq_refl)) as [Hok Hbad].
  split.
  - destruct (Hok disk0 chunks trace Hwhole) as (body & Hres & _).
    exists body. exact Hres.
  - apply (Hbad (accept disk0) (Js.Obj [("status", Js.Str "error")])
                "Worker report status not success"); reflexivity.
Defined.

(** C2 as the specification words it fails: the body of the 400 answer to
    a report whose status is not ["success"] is a line of plain text, not
    the JSON text of any object, whatever its fields. *)
Lemma error_body_is_not_json :
  let c := on_worker_message "/srv/app" no_fail (accept disk0)
             (Js.Obj [("status", Js.Str "error")]) in
  res c = Some (Response 400 "text/plain"
                  "Failed to process report: Worker report status not success") /\
  forall props,
    Js.stringify (Js.Obj props) <> (body <$> res c).
Proof.
  split; [reflexivity |].
  intros props.
  destruct (serialize_object "" "" props) as [s Hs].
  unfold Js.stringify. rewrite Hs. simpl. discriminate.
Qed.

(** C6. When the file system works, two uploads of the same bytes,
    however each is cut into chunks and at whatever pace the worker takes
    its turns, are both answered 200 with the same body, which carries the
    SHA-256 of the bytes as [finalHash]; the first writes the report to
    [<REPORTS_DIR>/<finalHash>.json], the second writes the same content to
    the same path and leaves the files as they were; the store holds that
    one path more than before, so exactly one file when it was empty. *)
Theorem identical_uploads (__dirname : string) (os : io) (store : fs)
        (chunks1 chunks2 : list (list byte))
        (trace1 trace2 : list Pipeline.event) :
  let first := Pipeline.srv (Pipeline.serve __dirname os store trace1) in
  let second := Pipeline.srv (Pipeline.serve __dirname os (disk first) trace2) in
  (forall call, os call = None) ->
  concat chunks1 = concat chunks2 ->
  whole_upload __dirname os store chunks1 trace1 ->
  whole_upload __dirname os (disk first) chunks2 trace2 ->
  let B := concat chunks1 in
  let lines := Scan.lines_of (Readline.decode B) in
  let finalHash := Sha256.sha256_hex B in
  let reportPath := path_join (REPORTS_DIR __dirname) (finalHash +:+ ".json") in
  exists content body,
    res first = Some (Response 200 "application/json" body) /\
    res second = Some (Response 200 "application/json" body) /\
    Js.stringify
      (Js.Obj [("status", Js.Str "success");
               ("finalHash", Js.Str finalHash);
               ("lineCount", Js.Num (Z.of_nat (length lines)));
               ("errorCount", Js.Num (count_errors lines));
               ("reportPath", Js.Str reportPath)]) = Some body /\
    files (disk first) = <[reportPath := content]> (files store) /\
    calls (disk second) =
      calls (disk first) ++ [Mkdir (REPORTS_DIR __dirname);
                             WriteFile reportPath content] /\
    files (disk second) = files (disk first) /\
    dirs (disk second) = dirs (disk first) /\
    dom (files (disk second)) = {[reportPath]} ∪ dom (files store) /\
    (files store = ∅ -> size (files (disk second)) = 1%nat).
Proof.
  intros first second Hos Hsame [Hreq1 Hempty1] [Hreq2 Hempty2]
         B lines finalHash reportPath.
  assert (Hlen : (10 < String.length finalHash)%nat).
  { unfold finalHash, Sha256.sha256_hex. rewrite digest_hex_length. lia. }
  destruct (accepted_report __dirname os Hos (accept store) finalHash
              (Z.of_nat (length lines)) (count_errors lines) eq_refl Hlen)
    as (content & body & Hcontent & Hbody & Hfirst).
  assert (Hf : first =
               Conn [] false (Some (Response 200 "application/json" body))
                    (Fs ({[REPORTS_DIR __dirname]} ∪ dirs store)
                        (<[reportPath := content]> (files store))
                        (calls store ++ [Mkdir (REPORTS_DIR __dirname);
                                         WriteFile reportPath content]))
                    false).
  { unfold first.
    rewrite (schedule_independence _ _ _ _ _ Hreq1 Hempty1), upload_report.
    exact Hfirst. }
  destruct (accepted_report __dirname os Hos (accept (disk first)) finalHash
              (Z.of_nat (length lines)) (count_errors lines) eq_refl Hlen)
    as (content' & body' & Hcontent' & Hbody' & Hsecond).
  assert (content' = content) by congruence.
  assert (body' = body) by congruence. subst content' body'.
  assert (Hs : second =
               Conn [] false (Some (Response 200 "application/json" body))
                    (Fs ({[REPORTS_DIR __dirname]} ∪ dirs (disk first))
                        (<[reportPath := content]> (files (disk first)))
                        (calls (disk first) ++ [Mkdir (REPORTS_DIR __dirname);
                                                WriteFile reportPath content]))
                    false).
  { unfold second.
    rewrite (schedule_independence _ _ _ _ _ Hreq2 Hempty2), upload_report,
      <- Hsame.
    exact Hsecond. }
  exists content, body.
  rewrite Hs. rewrite Hf. simpl.
  repeat split; try reflexivity.
  - exact Hbody.
  - apply insert_insert_eq.
  - now rewrite (assoc_L (∪)), union_idemp_L.
  - rewrite insert_insert_eq. apply dom_insert_L.
  - intros He. rewrite insert_insert_eq, He, insert_empty.
    apply map_size_singleton.
Qed.

Lemma identical_uploads_witness :
  let chunks1 := [bytes_of "ok"; bytes_of (nl +:+ "ERROR x")] in
  let chunks2 := [bytes_of ("ok" +:+ nl +:+ "ERROR x")] in
  let trace1 := [Pipeline.ReqData (bytes_of "ok"); Pipeline.WorkerTurn;
                 Pipeline.ReqData (bytes_of (nl +:+ "ERROR x"));
                 Pipeline.ReqEnd; Pipeline.WorkerTurn; Pipeline.WorkerTurn] in
  let trace2 := Pipeline.upload_trace chunks2 in
  let first := Pipeline.srv (Pipeline.serve "/srv/app" no_fail disk0 trace1) in
  let second :=
    Pipeline.srv (Pipeline.serve "/srv/app" no_fail (disk first) trace2) in
  ((forall call, no_fail call = None) /\
   concat chunks1 = concat chunks2 /\
   whole_upload "/srv/app" no_fail disk0 chunks1 trace1 /\
   whole_upload "/srv/app" no_fail (disk first) chunks2 trace2) /\
  res first = res second /\
  statusCode <$> res second = Some 200 /\
  files (disk second) = files (disk first) /\
  size (files (disk second)) = 1%nat.
Proof.
  intros chunks1 chunks2 trace1 trace2 first second.
  assert (H1 : whole_upload "/srv/app" no_fail disk0 chunks1 trace1).
  { split; [reflexivity | vm_compute; reflexivity]. }
  assert (H2 : whole_upload "/srv/app" no_fail (disk first) chunks2 trace2).
  { split; [reflexivity | vm_compute; reflexivity]. }
  split; [split; [reflexivity | split; [reflexivity | split; assumption]] |].
  destruct (identical_uploads "/srv/app" no_fail disk0 chunks1 chunks2
              trace1 trace2 (fun _ => eq_refl) eq_refl H1 H2)
    as (content & body & R1 & R2 & _ & _ & _ & Hfiles & _ & _ & Hsize).
  unfold second, first.
  split; [| split; [| split]].
  - rewrite R1, R2. exact eq_refl.
  - rewrite R2. exact eq_refl.
  - exact Hfiles.
  - apply Hsize. exact eq_refl.
Defined.

End ServerClaims.

(* ===================================================================== *)
(** * The two threads together *)

Section Threads.

Import LogProcessor Server Pipeline.

(** A message makes the worker post at the end of what it has posted, and
    nothing when it makes the worker throw. *)
Lemma on_message_posted (st : state) (m : message) :
  exists fresh,
    posted (on_message st m) = (posted st ++ fresh)%list /\
    (fault st = None -> fault (on_message st m) <> None -> fresh = []).
Proof.
  assert (Hnone : posted st = (posted st ++ [])%list)
    by now rewrite app_nil_r.
  unfold on_message.
  destruct (fault st) eqn:Hf; [exists []; split; [exact Hnone | congruence] |].
  destruct (String.eqb (type m) "chunk").
  - exists []. split; [| reflexivity].
    unfold hash_update.
    destruct (hash_finalized st); simpl; [exact Hnone |].
    rewrite Hf. unfold push. simpl.
    destruct (incomingStream_ended st); [exact Hnone |].
    destruct (data m) as [|b bs]; [exact Hnone |].
    destruct (Readline.normalWrite (rl st) (b :: bs)) as [r lines].
    rewrite fold_on_line. exact Hnone.
  - destruct (String.eqb (type m) "end");
      [| exists []; split; [exact Hnone | congruence]].
    unfold push_null.
    destruct (incomingStream_ended st);
      [exists []; split; [exact Hnone | congruence] |].
    destruct (Readline.onend _) as [[r lines] close].
    rewrite fold_on_line.
    destruct close; [| exists []; split; [exact Hnone | simpl; congruence]].
    unfold on_close. simpl.
    destruct (hash_finalized st); simpl.
    + exists []. split; [exact Hnone | reflexivity].
    + eexists. split; [reflexivity | congruence].
Qed.

Lemma skipn_posted {A : Type} (l fresh : list A) :
  skipn (length l) (l ++ fresh) = fresh.
Proof. induction l as [|x l IH]; [reflexivity | exact IH]. Qed.

Lemma buffered_queue (c : conn) (w : state) (queue : list message) :
  buffered (System (take c queue) w) =
  fold_right (fun m n => Z.of_nat (length (data m)) + n) 0 queue.
Proof. reflexivity. Qed.

Lemma queue_weight_app (q1 q2 : list message) :
  fold_right (fun m n => Z.of_nat (length (data m)) + n) 0 (q1 ++ q2) =
  fold_right (fun m n => Z.of_nat (length (data m)) + n) 0 q1 +
  fold_right (fun m n => Z.of_nat (length (data m)) + n) 0 q2.
Proof. induction q1 as [|m q1 IH]; simpl; [reflexivity | rewrite IH; lia]. Qed.

Lemma one_byte_chunks (b : byte) (n : nat) :
  length (concat (repeat [b] n)) = n.
Proof. induction n as [|n IH]; simpl; [reflexivity | now rewrite IH]. Qed.

Lemma queue_weight_chunks (chunks : list (list byte)) :
  fold_right (fun m n => Z.of_nat (length (data m)) + n) 0
             (map chunk_message chunks) =
  Z.of_nat (length (concat chunks)).
Proof.
  induction chunks as [|ch chunks IH]; simpl; [reflexivity |].
  rewrite IH, List.length_app. lia.
Qed.

Variable __dirname : string.
Variable os : io.

Local Abbreviation step := (Pipeline.step __dirname os).

(** A body that arrives while the worker takes no turn waits whole. *)
Lemma body_waits (disk : fs) (chunks : list (list byte)) :
  let s := serve __dirname os disk (map ReqData chunks) in
  inbox (srv s) = map chunk_message chunks /\
  buffered s = Z.of_nat (length (concat chunks)).
Proof.
  unfold serve. rewrite body_queued. simpl.
  split; [reflexivity |].
  rewrite buffered_queue. apply queue_weight_chunks.
Qed.

Lemma unanswered_step (s : system) (ev : event) :
  unanswered_while_working s -> unanswered_while_working (step s ev).
Proof.
  unfold unanswered_while_working. intros Inv.
  destruct s as [c w]. destruct ev as [chunk | | | | e]; simpl.
  - exact Inv.
  - exact Inv.
  - unfold running, on_req_error, respond, terminate. simpl.
    destruct (res c); simpl; discriminate.
  - destruct (running (System c w)) eqn:Hrun;
      [| intros H; rewrite Hrun in H; discriminate].
    destruct (inbox c) as [|m rest] eqn:Hin;
      [intros _; apply Inv; reflexivity |].
    destruct (on_message_posted w m) as (fresh & Hp & _).
    intros Hrun' Hnil. simpl in Hnil. rewrite Hnil in Hp.
    symmetry in Hp. apply app_eq_nil in Hp as [Hw Hfresh].
    unfold running in Hrun'. simpl in Hrun'.
    apply andb_prop in Hrun' as [_ Hfault].
    simpl. rewrite Hnil, Hw. simpl. unfold signal, deliver.
    destruct (fault (on_message w m)); [discriminate |]. simpl.
    apply Inv; [reflexivity | exact Hw].
  - destruct (running (System c w)) eqn:Hrun;
      [| intros H; rewrite Hrun in H; discriminate].
    unfold running. simpl. rewrite andb_false_r. discriminate.
Qed.

Lemma unanswered_serve (disk : fs) (trace : list event) :
  unanswered_while_working (serve __dirname os disk trace).
Proof.
  unfold serve.
  assert (G : forall tr s, unanswered_while_working s ->
                           unanswered_while_working (fold_left step tr s)).
  { induction tr as [|ev tr IH]; intros s Hs; [exact Hs |].
    simpl. apply IH, unanswered_step, Hs. }
  apply G. intros _ _. split; reflexivity.
Qed.

End Threads.

Section ThreadClaims.

Import LogProcessor Server Pipeline.

(** C5. In every state an upload can reach, while the worker runs and
    has not posted its report: whatever makes the worker throw, the
    request is answered 500 [Processing error.] and the worker runs no
    more, the runtime having stopped it before the handler is called. No
    worker is left alive for the handler to terminate, and it calls no
    [terminate()]; the server process itself goes on. *)
Theorem worker_fault_answered (__dirname : string) (os : io) (disk : fs)
        (trace : list event) (ev : event) :
  let s := serve __dirname os disk trace in
  let s' := step __dirname os s ev in
  running s = true ->
  posted (wrk s) = [] ->
  fault (wrk s') <> None ->
  res (srv s') = Some (Response 500 "text/plain" "Processing error.") /\
  running s' = false /\
  posted (wrk s') = [] /\
  terminated (srv s') = false /\
  crashed (srv s') = false.
Proof.
  intros s s' Hrun Hnil Hfault.
  pose proof (unanswered_serve __dirname os disk trace Hrun Hnil) as [Hres Hok].
  fold s in Hres, Hok. unfold s' in *. clearbody s.
  destruct s as [c w]. simpl in *.
  unfold running in Hrun. simpl in Hrun.
  apply andb_prop in Hrun as [Ht Hw]. apply negb_true_iff in Ht.
  destruct (fault w) eqn:Hf; [discriminate |].
  destruct ev as [chunk | | | | e]; simpl in Hfault |- *;
    try (unfold running in Hfault; simpl in Hfault;
         rewrite ?Ht, ?Hf in Hfault; simpl in Hfault; congruence).
  - unfold running in *. simpl in *. rewrite Ht, Hf in *. simpl in *.
    destruct (inbox c) as [|m rest]; simpl in *; [congruence |].
    destruct (on_message_posted w m) as (fresh & Hp & Hthrow).
    specialize (Hthrow Hf Hfault). subst fresh.
    rewrite app_nil_r in Hp. rewrite Hp, Hnil. simpl.
    unfold signal, deliver. simpl.
    destruct (fault (on_message w m)); [| congruence].
    unfold on_worker_error, respond. simpl. rewrite Hres. simpl.
    rewrite Ht, Hok. auto.
  - unfold running in *. simpl in *. rewrite Ht, Hf in *. simpl in *.
    unfold signal. simpl. unfold on_worker_error, respond. rewrite Hres.
    simpl. rewrite Ht, Hok. auto.
Qed.

Lemma worker_fault_answered_witness :
  let trace := [ReqData (bytes_of "ERROR half"); WorkerTurn] in
  let ev := WorkerFault (Js.Error "out of memory") in
  let s := serve "/srv/app" no_fail disk0 trace in
  let s' := step "/srv/app" no_fail s ev in
  (running s = true /\ posted (wrk s) = [] /\ fault (wrk s') <> None) /\
  res (srv s') = Some (Response 500 "text/plain" "Processing error.") /\
  running s' = false /\
  posted (wrk s') = [] /\
  terminated (srv s') = false /\
  crashed (srv s') = false.
Proof.
  assert (H : let trace := [ReqData (bytes_of "ERROR half"); WorkerTurn] in
              let ev := WorkerFault (Js.Error "out of memory") in
              let s := serve "/srv/app" no_fail disk0 trace in
              let s' := step "/srv/app" no_fail s ev in
              running s = true /\ posted (wrk s) = [] /\ fault (wrk s') <> None).
  { vm_compute. split; [reflexivity | split; [reflexivity | discriminate]]. }
  split; [exact H |].
  destruct H as (H1 & H2 & H3).
  exact (worker_fault_answered "/srv/app" no_fail disk0
           [ReqData (bytes_of "ERROR half"); WorkerTurn]
           (WorkerFault (Js.Error "out of memory")) H1 H2 H3).
Defined.

(** C7, as the code has it. Every ['data'] event hands its chunk to
    [postMessage] at once, whatever the queue of the worker holds: the
    chunk joins the queue and the bytes that wait grow by its length. The
    request is never paused; a body that arrives before the worker takes a
    turn waits in the queue whole. *)
Theorem forwarding_never_stalls (__dirname : string) (os : io) :
  (forall (s : system) (chunk : list byte),
      let s' := step __dirname os s (ReqData chunk) in
      inbox (srv s') = inbox (srv s) ++ [chunk_message chunk] /\
      buffered s' = buffered s + Z.of_nat (length chunk)) /\
  (forall (disk : fs) (chunks : list (list byte)),
      let s := serve __dirname os disk (map ReqData chunks) in
      inbox (srv s) = map chunk_message chunks /\
      buffered s = Z.of_nat (length (concat chunks))).
Proof.
  split.
  - intros s chunk. simpl. split; [reflexivity |].
    unfold buffered. simpl. rewrite queue_weight_app. simpl. lia.
  - intros disk chunks. apply body_waits.
Qed.

(** C7 as the specification words it fails: no bound holds for the bytes
    that wait between the request and the worker. Whatever the bound, a
    body of more chunks of one byte than that, arriving before the worker
    takes a turn, waits in the queue whole. *)
Lemma buffering_is_unbounded : ~ bounded_buffering "/srv/app" no_fail.
Proof.
  intros [bound H].
  set (n := Z.to_nat (Z.max 0 bound + 1)).
  specialize (H disk0 (map ReqData (repeat [x00] n))).
  destruct (body_waits "/srv/app" no_fail disk0 (repeat [x00] n)) as [_ Hb].
  rewrite Hb, one_byte_chunks in H. unfold n in H. lia.
Qed.

End ThreadClaims.

(* ===================================================================== *)
(** * More on the analysis worker *)

Section WorkerProtocol.

Import LogProcessor.

Lemma reported_state_frozen (st : state) (m : message) :
  reported_state st ->
  reported_state (on_message st m) /\ posted (on_message st m) = posted st.
Proof.
  intros [Hh He]. unfold reported_state, on_message.
  destruct (fault st); [auto |].
  destruct (String.eqb (type m) "chunk").
  - unfold hash_update. rewrite Hh. simpl. auto.
  - destruct (String.eqb (type m) "end"); [| auto].
    unfold push_null. rewrite He. auto.
Qed.

Lemma reported_state_run (messages : list message) (st : state) :
  reported_state st -> posted (run st messages) = posted st.
Proof.
  unfold run. revert st.
  induction messages as [|m ms IH]; intros st Hst; [reflexivity |].
  cbn [fold_left]. destruct (reported_state_frozen st m Hst) as [Hst' Hp].
  now rewrite (IH _ Hst').
Qed.

(** While it receives, the worker takes the chunk messages in and lets the
    end message close the input; what it has posted after any messages is
    then settled by the first end message among them. *)
Lemma run_until_end (messages : list message) (st : state) :
  receiving st ->
  posted (run st messages) =
  (posted st ++
   if has_end messages then
     [report_for_state (absorb st (body_before_end messages))]
   else [])%list.
Proof.
  revert st. induction messages as [|m ms IH]; intros st Hst.
  - simpl. now rewrite app_nil_r.
  - change (run st (m :: ms)) with (run (on_message st m) ms).
    cbn [has_end existsb body_before_end]. fold (has_end ms).
    destruct (String.eqb (type m) "chunk") eqn:Hc.
    + assert (Hm : on_message st m = absorb st (data m)).
      { rewrite <- (on_chunk st (data m) Hst). unfold on_message.
        simpl. rewrite Hc. reflexivity. }
      assert (He : String.eqb (type m) "end" = false).
      { apply String.eqb_eq in Hc. rewrite Hc. reflexivity. }
      rewrite He, Hm. cbn [orb].
      rewrite (IH _ (receiving_absorb _ _ Hst)), absorb_app.
      assert (Hp : posted (absorb st (data m)) = posted st).
      { unfold absorb. destruct (StringDecoder.write _ _) as [? ?].
          destruct (Scan.feed _ _ _) as [[? ?] ?]. reflexivity. }
      now rewrite Hp.
    + destruct (String.eqb (type m) "end") eqn:He.
      * cbn [orb]. rewrite absorb_nil.
        assert (Hm : on_message st m = on_message st end_message).
        { unfold on_message. simpl. rewrite Hc, He. reflexivity. }
        rewrite Hm.
        pose proof (on_end st Hst) as Hend. cbv zeta in Hend.
        rewrite reported_state_run.
        -- rewrite Hend. reflexivity.
        -- rewrite Hend. split; reflexivity.
      * cbn [orb].
        assert (Hm : on_message st m = st).
        { unfold on_message. rewrite Hc, He. destruct (fault st); reflexivity. }
        rewrite Hm. apply IH, Hst.
Qed.

End WorkerProtocol.

Section WorkerExtras.

Import LogProcessor.

(** X1. Whatever messages the worker is sent, it posts nothing before the
    first end message, and with it exactly one report: the report of the
    bytes of the chunk messages that came before. Messages after the first
    end message add no report and change none. *)
Theorem one_report_at_first_end (messages : list message) :
  posted (run init messages) =
  if has_end messages then [report_for (body_before_end messages)] else [].
Proof.
  rewrite (run_until_end messages init receiving_init). simpl app.
  destruct (has_end messages); [| reflexivity].
  f_equal. apply report_of_absorbed.
Qed.

Lemma code_range (b : byte) : 0 <= StringDecoder.code b < 256.
Proof.
  unfold StringDecoder.code. pose proof (Byte.to_N_bounded b). lia.
Qed.

Lemma code_inj (a b : byte) : StringDecoder.code a = StringDecoder.code b -> a = b.
Proof.
  unfold StringDecoder.code. intros H. apply N2Z.inj in H.
  apply (f_equal Byte.of_N) in H. rewrite !Byte.of_to_N in H.
  congruence.
Qed.

(** A byte of ASCII is let through as it is, after what it makes the
    decoder let go of. *)
Lemma step_ascii (d : StringDecoder.t) (b : byte) :
  StringDecoder.code b < 0x80 ->
  StringDecoder.step d b =
  (flushed d ++ [StringDecoder.code b], StringDecoder.create).
Proof.
  intros Hb. unfold StringDecoder.step, flushed.
  assert (Hf : StringDecoder.fresh b =
               ([StringDecoder.code b], StringDecoder.create)).
  { unfold StringDecoder.fresh.
    destruct (Z.ltb_spec (StringDecoder.code b) 0x80); [reflexivity | lia]. }
  assert (Hc : StringDecoder.is_continuation b = false).
  { unfold StringDecoder.is_continuation.
    destruct (Z.leb_spec 0x80 (StringDecoder.code b)); [lia | reflexivity]. }
  destruct (StringDecoder.missing d); [exact Hf |].
  rewrite Hc, Hf. reflexivity.
Qed.

(** The decoder after a text that ends in a byte of ASCII holds nothing
    back. *)
Lemma write_ascii_last (d : StringDecoder.t) (body : list byte) (c : byte) :
  StringDecoder.code c < 0x80 ->
  exists T,
    StringDecoder.write d (body ++ [c]) =
    (T ++ [StringDecoder.code c], StringDecoder.create).
Proof.
  intros Hc. rewrite write_app.
  destruct (StringDecoder.write d body) as [t1 d1].
  cbn [StringDecoder.write]. rewrite (step_ascii d1 c Hc).
  exists (t1 ++ flushed d1). now rewrite app_nil_r, List.app_assoc.
Qed.

Lemma lines_of_final_newline (s : Js.text) (c : Z) :
  (c =? Readline.LF) = false ->
  (c =? Readline.CR) = false ->
  Readline.is_separator c = false ->
  Scan.lines_of (s ++ [c; Readline.LF]) = Scan.lines_of (s ++ [c]).
Proof.
  intros Hlf Hcr Hsep. unfold Scan.lines_of. rewrite !feed_app.
  destruct (Scan.feed [] false s) as [[b1 w1] l1].
  rewrite !feed_cons, Hlf, Hcr, Hsep.
  cbn [Scan.feed]. rewrite Z.eqb_refl. cbn [Scan.is_empty app].
  assert (He : Scan.is_empty (b1 ++ [c]) = false)
    by (destruct b1; reflexivity).
  rewrite He. now rewrite <- !List.app_assoc.
Qed.

(** X2. A line feed after a last line that ends in a character of ASCII
    other than a line ending changes neither count: the text with and
    without it has the same [lineCount] and [errorCount]. *)
Theorem final_newline_not_counted (body : list byte) (c : byte) :
  StringDecoder.code c < 0x80 ->
  c <> x0a -> c <> x0d ->
  let text := (body ++ [c])%list in
  reported "lineCount" (analyse [(text ++ [x0a])%list]) =
    reported "lineCount" (analyse [text]) /\
  reported "errorCount" (analyse [(text ++ [x0a])%list]) =
    reported "errorCount" (analyse [text]).
Proof.
  intros Hascii Hlf Hcr text.
  destruct (analyse_report [(text ++ [x0a])%list]) as [H1 _].
  destruct (analyse_report [text]) as [H2 _].
  unfold reported. rewrite H1, H2. simpl concat. rewrite !app_nil_r.
  unfold report_for, text, Readline.decode.
  rewrite (write_app _ (body ++ [c]) [x0a]).
  destruct (write_ascii_last StringDecoder.create body c Hascii) as [T HT].
  assert (Hw : StringDecoder.write StringDecoder.create [x0a] =
               ([Readline.LF], StringDecoder.create)) by reflexivity.
  rewrite HT, Hw. cbn [fst].
  rewrite <- (List.app_assoc T [StringDecoder.code c] [Readline.LF]).
  cbn [app].
  assert (Hnlf : (StringDecoder.code c =? Readline.LF) = false).
  { apply Z.eqb_neq. intros H. apply Hlf. apply code_inj. exact H. }
  assert (Hncr : (StringDecoder.code c =? Readline.CR) = false).
  { apply Z.eqb_neq. intros H. apply Hcr. apply code_inj. exact H. }
  assert (Hnsep : Readline.is_separator (StringDecoder.code c) = false).
  { unfold Readline.is_separator, Readline.LS, Readline.PS.
    destruct (Z.eqb_spec (StringDecoder.code c) 0x2028); [lia |].
    destruct (Z.eqb_spec (StringDecoder.code c) 0x2029); [lia |].
    reflexivity. }
  rewrite (lines_of_final_newline _ _ Hnlf Hncr Hnsep).
  split; reflexivity.
Qed.

Lemma final_newline_not_counted_witness :
  let body := (bytes_of ("ERROR a" +:+ nl) ++ [xe2; x82])%list in
  let c := x63 in
  (StringDecoder.code c < 0x80 /\ c <> x0a /\ c <> x0d) /\
  reported "lineCount" (analyse [((body ++ [c]) ++ [x0a])%list]) =
    reported "lineCount" (analyse [(body ++ [c])%list]) /\
  reported "errorCount" (analyse [((body ++ [c]) ++ [x0a])%list]) =
    reported "errorCount" (analyse [(body ++ [c])%list]).
Proof.
  split; [split; [reflexivity | split; discriminate] |].
  apply (final_newline_not_counted
           (bytes_of ("ERROR a" +:+ nl) ++ [xe2; x82])%list x63);
    [reflexivity | discriminate | discriminate].
Defined.

(** The code points that V8 makes of a sequence are beyond ASCII. *)
Lemma decode_sequence_high (s : list byte) :
  List.Forall (fun cp => 0x80 <= cp) (StringDecoder.decode_sequence s).
Proof.
  destruct s as [|lead conts]; [constructor |].
  unfold StringDecoder.decode_sequence.
  destruct (StringDecoder.well_begun lead conts) eqn:Hwb.
  2: { apply List.Forall_forall. intros cp Hin.
       apply List.repeat_spec in Hin. subst cp.
       unfold StringDecoder.REPLACEMENT. lia. }
  destruct (Nat.eqb_spec (length conts) (StringDecoder.announced lead))
    as [Hlen |]; [| constructor; [unfold StringDecoder.REPLACEMENT; lia
                                 | constructor]].
  constructor; [| constructor].
  unfold StringDecoder.well_begun in Hwb.
  unfold StringDecoder.code_point, StringDecoder.payload.
  unfold StringDecoder.announced in *.
  pose proof (code_range lead) as Hl.
  set (l := StringDecoder.code lead) in *.
  destruct (Z.leb_spec 0xC2 l); [| discriminate].
  destruct (Z.leb_spec l 0xF4); [| discriminate].
  cbn [andb] in Hwb.
  destruct (Z.leb_spec 0xC0 l); [| lia].
  destruct (Z.leb_spec l 0xDF); cbn [andb] in *.
  { destruct conts as [|c1 [|c2 conts]]; try discriminate.
    destruct (Z.eqb_spec l 0xE0); [lia |].
    destruct (Z.eqb_spec l 0xF0); [lia |].
    destruct (Z.eqb_spec l 0xED); [lia |].
    destruct (Z.eqb_spec l 0xF4); [lia |].
    apply andb_prop in Hwb as [Hlow Hhigh].
    apply Z.leb_le in Hlow, Hhigh. cbn [fold_left]. lia. }
  destruct (Z.leb_spec 0xE0 l); [| lia].
  destruct (Z.leb_spec l 0xEF); cbn [andb] in *.
  { destruct conts as [|c1 [|c2 [|c3 conts]]]; try discriminate.
    pose proof (code_range c2).
    destruct (Z.eqb_spec l 0xF0); [lia |].
    destruct (Z.eqb_spec l 0xF4); [lia |].
    apply andb_prop in Hwb as [Hlow Hhigh]. apply Z.leb_le in Hhigh.
    cbn [fold_left].
    destruct (Z.eqb_spec l 0xE0); apply Z.leb_le in Hlow; lia. }
  destruct (Z.leb_spec 0xF0 l); [| lia].
  destruct (Z.leb_spec l 0xF7); [| lia]. cbn [andb] in *.
  destruct conts as [|c1 [|c2 [|c3 [|c4 conts]]]]; try discriminate.
  pose proof (code_range c2). pose proof (code_range c3).
  destruct (Z.eqb_spec l 0xE0); [lia |].
  destruct (Z.eqb_spec l 0xED); [lia |].
  apply andb_prop in Hwb as [Hlow Hhigh]. apply Z.leb_le in Hhigh.
  cbn [fold_left].
  destruct (Z.eqb_spec l 0xF0); apply Z.leb_le in Hlow; lia.
Qed.

(** A byte that is no carriage return lets no carriage return through. *)
Lemma step_no_return (d : StringDecoder.t) (b : byte) :
  b <> x0d ->
  List.Forall (fun c => c <> Readline.CR) (fst (StringDecoder.step d b)).
Proof.
  intros Hb.
  assert (Hhigh : forall s,
             List.Forall (fun c => c <> Readline.CR)
                         (StringDecoder.decode_sequence s)).
  { intros s. eapply List.Forall_impl; [| apply decode_sequence_high].
    unfold Readline.CR. cbv beta. intros cp Hcp. lia. }
  assert (Hfresh : List.Forall (fun c => c <> Readline.CR)
                               (fst (StringDecoder.fresh b))).
  { unfold StringDecoder.fresh.
    destruct (StringDecoder.code b <? 0x80).
    - constructor; [| constructor]. intros H. apply Hb, code_inj. exact H.
    - destruct (StringDecoder.announced b); cbn [fst];
        [constructor; [discriminate | constructor] | constructor]. }
  unfold StringDecoder.step.
  destruct (StringDecoder.missing d) as [|[|m]]; [exact Hfresh | |].
  - destruct (StringDecoder.is_continuation b); [apply Hhigh |].
    destruct (StringDecoder.fresh b) as [out d'].
    apply List.Forall_app. split; [apply Hhigh | exact Hfresh].
  - destruct (StringDecoder.is_continuation b); [constructor |].
    destruct (StringDecoder.fresh b) as [out d'].
    apply List.Forall_app. split; [apply Hhigh | exact Hfresh].
Qed.

(** After text without a carriage return, none is remembered. *)
Lemma feed_no_return (s buf : Js.text) :
  List.Forall (fun c => c <> Readline.CR) s ->
  snd (fst (Scan.feed buf false s)) = false.
Proof.
  intros Hs. revert buf. induction Hs as [|c s Hc _ IH]; intros buf;
    [reflexivity |].
  rewrite feed_cons. apply Z.eqb_neq in Hc. rewrite Hc.
  destruct (c =? Readline.LF); [| destruct (Readline.is_separator c)];
    try apply IH;
    specialize (IH []); destruct (Scan.feed [] false s) as [[b w] ls];
    exact IH.
Qed.

(** Carriage returns put before the line feeds change no line. *)
Lemma feed_crlf (body : list byte) :
  List.Forall (fun b => b <> x0d) body ->
  forall (d : StringDecoder.t) (buf : Js.text),
    snd (StringDecoder.write d (with_crlf body)) =
      snd (StringDecoder.write d body) /\
    Scan.feed buf false (fst (StringDecoder.write d (with_crlf body))) =
      Scan.feed buf false (fst (StringDecoder.write d body)).
Proof.
  intros Hcr. induction Hcr as [|b rest Hb _ IH]; intros d buf;
    [split; reflexivity |].
  cbn [with_crlf]. destruct (Byte.eqb b x0a) eqn:Hlf.
  - apply Byte.byte_dec_bl in Hlf. subst b.
    cbn [StringDecoder.write].
    rewrite (step_ascii d x0d), (step_ascii d x0a),
            (step_ascii StringDecoder.create x0a) by reflexivity.
    destruct (IH StringDecoder.create []) as [Hd Hfeed].
    destruct (StringDecoder.write StringDecoder.create (with_crlf rest))
      as [more' d'].
    destruct (StringDecoder.write StringDecoder.create rest) as [more d''].
    cbn [fst snd] in *. split; [exact Hd |].
    change (flushed StringDecoder.create) with (@nil Z).
    change (StringDecoder.code x0d) with Readline.CR.
    change (StringDecoder.code x0a) with Readline.LF.
    rewrite <- !List.app_assoc. rewrite !(feed_app (flushed d)).
    assert (Hflag : snd (fst (Scan.feed buf false (flushed d))) = false).
    { apply feed_no_return. unfold flushed.
      destruct (StringDecoder.missing d); [constructor |].
      eapply List.Forall_impl; [| apply decode_sequence_high].
      unfold Readline.CR. cbv beta. intros cp Hcp. lia. }
    destruct (Scan.feed buf false (flushed d)) as [[b1 w1] l1].
    cbn [fst snd] in Hflag. subst w1.
    cbn [app]. rewrite !feed_cons.
    change (Readline.CR =? Readline.LF) with false.
    change (Readline.CR =? Readline.CR) with true.
    change (Readline.LF =? Readline.LF) with true.
    cbv iota. rewrite Hfeed. reflexivity.
  - cbn [StringDecoder.write].
    pose proof (step_no_return d b Hb) as Hout.
    destruct (StringDecoder.step d b) as [out d1]. cbn [fst] in Hout.
    destruct (IH d1 []) as [Hd _].
    assert (Hany : forall buf',
               Scan.feed buf' false
                 (fst (StringDecoder.write d1 (with_crlf rest))) =
               Scan.feed buf' false (fst (StringDecoder.write d1 rest)))
      by (intros buf'; apply IH).
    destruct (StringDecoder.write d1 (with_crlf rest)) as [more' d'].
    destruct (StringDecoder.write d1 rest) as [more d''].
    cbn [fst snd] in *. split; [exact Hd |].
    rewrite !feed_app.
    pose proof (feed_no_return out buf Hout) as Hflag.
    destruct (Scan.feed buf false out) as [[b1 w1] l1].
    cbn [fst snd] in Hflag. subst w1. rewrite Hany. reflexivity.
Qed.

(** X19. Line endings of the two kinds count alike: in a text without
    carriage returns, writing every line feed as carriage return and line
    feed changes neither [lineCount] nor [errorCount]. *)
Theorem crlf_counts_as_lf (body : list byte) :
  List.Forall (fun b => b <> x0d) body ->
  reported "lineCount" (analyse [with_crlf body]) =
    reported "lineCount" (analyse [body]) /\
  reported "errorCount" (analyse [with_crlf body]) =
    reported "errorCount" (analyse [body]).
Proof.
  intros Hcr.
  destruct (analyse_report [with_crlf body]) as [H1 _].
  destruct (analyse_report [body]) as [H2 _].
  unfold reported. rewrite H1, H2. simpl concat. rewrite !app_nil_r.
  unfold report_for, Scan.lines_of, Readline.decode.
  destruct (feed_crlf body Hcr StringDecoder.create []) as [_ Hfeed].
  rewrite Hfeed. split; reflexivity.
Qed.

Lemma crlf_counts_as_lf_witness :
  let body := bytes_of ("ERROR a" +:+ nl +:+ "b" +:+ nl) in
  List.Forall (fun b => b <> x0d) body /\
  reported "lineCount" (analyse [with_crlf body]) =
    reported "lineCount" (analyse [body]).
Proof.
  intros body.
  assert (H : List.Forall (fun b => b <> x0d) body).
  { repeat (constructor; [discriminate |]). constructor. }
  split; [exact H |].
  exact (proj1 (crlf_counts_as_lf body H)).
Defined.

End WorkerExtras.

(* ===================================================================== *)
(** * More on the request server *)

Section UploadOutcome.

Import Server.

Variable __dirname : string.
Variable os : io.

(** The handler on the report of the bytes [B], whatever the file system
    answers. *)
Lemma handled_report (c : conn) (B : list byte) :
  res c = None ->
  exists body,
    Js.stringify
      (Js.Obj (Js.set_prop "reportPath" (Js.Str (report_path __dirname B))
                           (Js.own_props (report_for B)))) = Some body /\
    on_worker_message __dirname os c (report_for B) =
    match first_failure os (persist_calls __dirname B) with
    | Some e =>
        Conn (inbox c) (terminated c) (Some (failure_response e))
             (Fs (match os (Mkdir (REPORTS_DIR __dirname)) with
                  | Some _ => dirs (disk c)
                  | None => {[REPORTS_DIR __dirname]} ∪ dirs (disk c)
                  end)
                 (failed_files __dirname os B (files (disk c)))
                 (calls (disk c) ++ calls_made os (persist_calls __dirname B)))
             (crashed c)
    | None =>
        Conn (inbox c) (terminated c)
             (Some (Response 200 "application/json" body))
             (Fs ({[REPORTS_DIR __dirname]} ∪ dirs (disk c))
                 (<[report_path __dirname B := report_content B]>
                    (files (disk c)))
                 (calls (disk c) ++ persist_calls __dirname B))
             (crashed c)
    end.
Proof.
  intros Hres.
  destruct (serialize_object "  " "" (Js.own_props (report_for B)))
    as [content Hcontent].
  destruct (serialize_object "" ""
              (Js.set_prop "reportPath" (Js.Str (report_path __dirname B))
                           (Js.own_props (report_for B)))) as [body Hbody].
  exists (String "{" body). split; [exact Hbody |].
  assert (Hc : report_content B = String "{" content).
  { unfold report_content.
    change (Js.stringify_indent2 (report_for B))
      with (Js.serialize "  " "" (Js.Obj (Js.own_props (report_for B)))).
    now rewrite Hcontent. }
  unfold on_worker_message.
  assert (Hv : validate (report_for B) = inr (Sha256.sha256_hex B)).
  { apply validate_report_of. unfold Sha256.sha256_hex.
    rewrite digest_hex_length. lia. }
  rewrite Hv.
  destruct c as [ib t r d cr]. simpl in Hres. subst r.
  unfold store_and_respond, mkdir, persist_calls, failed_files.
  cbn [first_failure calls_made].
  fold (report_path __dirname B).
  destruct (os (Mkdir (REPORTS_DIR __dirname))) as [e |] eqn:Hmk.
  - unfold catch, respond, failure_response. reflexivity.
  - change (Js.stringify_indent2 (report_for B))
      with (Js.serialize "  " "" (Js.Obj (Js.own_props (report_for B)))).
    rewrite Hcontent, Hc. unfold writeFile.
    cbn [with_disk disk res inbox terminated crashed dirs files calls].
    destruct (os (WriteFile (report_path __dirname B) (String "{" content)))
      as [e |] eqn:Hwr.
    + unfold catch, respond, failure_response.
      cbn [with_disk disk res inbox terminated crashed dirs files calls].
      rewrite <- List.app_assoc. reflexivity.
    + cbn [with_disk disk res inbox terminated crashed dirs files calls].
      unfold Js.stringify in *. rewrite Hbody. unfold respond.
      cbn [with_disk disk res inbox terminated crashed dirs files calls].
      rewrite <- List.app_assoc. reflexivity.
Qed.

End UploadOutcome.

Section UploadOutcomes.

Import Server.

Lemma first_failure_from (os : io) (calls : list fs_call) (e : Js.error) :
  first_failure os calls = Some e -> exists call, os call = Some e.
Proof.
  induction calls as [|call rest IH]; simpl; [discriminate |].
  destruct (os call) eqn:Hc; [| exact IH].
  intros H. injection H as <-. eauto.
Qed.

(** A whole upload, whatever the file system answers and at whatever pace
    the worker works. *)
Lemma whole_upload_handled (__dirname : string) (os : io) (store : fs)
      (chunks : list (list byte)) (trace : list Pipeline.event) :
  whole_upload __dirname os store chunks trace ->
  let B := concat chunks in
  exists body,
    Pipeline.srv (Pipeline.serve __dirname os store trace) =
    match first_failure os (persist_calls __dirname B) with
    | Some e =>
        Conn [] false (Some (failure_response e))
             (Fs (match os (Mkdir (REPORTS_DIR __dirname)) with
                  | Some _ => dirs store
                  | None => {[REPORTS_DIR __dirname]} ∪ dirs store
                  end)
                 (failed_files __dirname os B (files store))
                 (calls store ++ calls_made os (persist_calls __dirname B)))
             false
    | None =>
        Conn [] false (Some (Response 200 "application/json" body))
             (Fs ({[REPORTS_DIR __dirname]} ∪ dirs store)
                 (<[report_path __dirname B := report_content B]> (files store))
                 (calls store ++ persist_calls __dirname B))
             false
    end.
Proof.
  intros [Hreq Hempty] B.
  rewrite (schedule_independence _ _ _ _ _ Hreq Hempty), upload_report.
  destruct (handled_report __dirname os (accept store) B eq_refl)
    as (body & _ & Hrun).
  exists body. exact Hrun.
Qed.

(** X3. A whole upload is answered 200 when [mkdir] and [writeFile] both
    succeed, and the report is then in the store; when one of them fails
    the answer is 500 with the message of the failure, and a failed [mkdir]
    is not followed by a [writeFile]. After a failure every file but the
    file of the report is as before; the file of the report is as before
    when [mkdir] failed, and after a failed [writeFile] it is as before or
    holds the part of the report that was written. The validation never
    turns the worker's own report down: no whole upload is answered 400. *)
Theorem upload_outcome (__dirname : string) (os : io) (store : fs)
        (chunks : list (list byte)) (trace : list Pipeline.event) :
  whole_upload __dirname os store chunks trace ->
  (forall call e, os call = Some e -> Js.instanceof_AssertionError e = false) ->
  let B := concat chunks in
  let c := Pipeline.srv (Pipeline.serve __dirname os store trace) in
  calls (disk c) = calls store ++ calls_made os (persist_calls __dirname B) /\
  match first_failure os (persist_calls __dirname B) with
  | None =>
      (exists body, res c = Some (Response 200 "application/json" body)) /\
      files (disk c) =
        <[report_path __dirname B := report_content B]> (files store)
  | Some e =>
      res c = Some (Response 500 "text/plain"
                      ("Failed to process report: " +:+ Js.message e)) /\
      (os (Mkdir (REPORTS_DIR __dirname)) <> None ->
       files (disk c) = files store) /\
      (forall path, path <> report_path __dirname B ->
                    files (disk c) !! path = files store !! path) /\
      (files (disk c) !! report_path __dirname B =
         files store !! report_path __dirname B \/
       exists n, files (disk c) !! report_path __dirname B =
                   Some (String.substring 0 n (report_content B)))
  end.
Proof.
  intros Hwhole Hsys B c.
  destruct (whole_upload_handled _ _ _ _ _ Hwhole) as [body Hc].
  fold B in Hc. fold c in Hc.
  destruct (first_failure os (persist_calls __dirname B)) as [e |] eqn:Hf.
  - destruct (first_failure_from _ _ _ Hf) as [call Hcall].
    rewrite Hc. cbn [disk calls files res]. unfold failure_response.
    rewrite (Hsys _ _ Hcall). split; [reflexivity |]. split; [reflexivity |].
    unfold failed_files.
    destruct (os (Mkdir (REPORTS_DIR __dirname))) as [e' |].
    + split; [reflexivity |]. split; [reflexivity | left; reflexivity].
    + destruct (written os _ _) as [n |].
      * split; [congruence |]. split.
        -- intros path Hpath. apply lookup_insert_ne. congruence.
        -- right. exists n. apply lookup_insert_eq.
      * split; [reflexivity |]. split; [reflexivity | left; reflexivity].
  - rewrite Hc. simpl. split; [| split; [eauto | reflexivity]].
    f_equal. unfold persist_calls in *. simpl in Hf |- *.
    destruct (os (Mkdir _)); [discriminate |].
    destruct (os (WriteFile _ _)); [discriminate | reflexivity].
Qed.

Lemma upload_outcome_witness :
  let chunks := [bytes_of "ok"; bytes_of (nl +:+ "ERROR x")] in
  let trace := [Pipeline.ReqData (bytes_of "ok"); Pipeline.WorkerTurn;
                Pipeline.ReqData (bytes_of (nl +:+ "ERROR x"));
                Pipeline.ReqEnd; Pipeline.WorkerTurn; Pipeline.WorkerTurn] in
  let c := Pipeline.srv (Pipeline.serve "/srv/app" disk_full disk0 trace) in
  (whole_upload "/srv/app" disk_full disk0 chunks trace /\
   (forall call e, disk_full call = Some e ->
                   Js.instanceof_AssertionError e = false)) /\
  res c = Some (Response 500 "text/plain"
                  "Failed to process report: ENOSPC: no space left on device, write") /\
  forall path, path <> report_path "/srv/app" (concat chunks) ->
               files (disk c) !! path = files disk0 !! path.
Proof.
  intros chunks trace c.
  assert (H1 : whole_upload "/srv/app" disk_full disk0 chunks trace).
  { split; [reflexivity | vm_compute; reflexivity]. }
  assert (H2 : forall call e, disk_full call = Some e ->
                              Js.instanceof_AssertionError e = false).
  { intros [dir | path content] e H; simpl in H; [discriminate |].
    injection H as <-. reflexivity. }
  split; [split; assumption |].
  pose proof (upload_outcome "/srv/app" disk_full disk0 chunks trace H1 H2)
    as [_ H].
  lazy beta iota zeta delta [first_failure persist_calls disk_full answer] in H.
  destruct H as (Hres & _ & Hfiles & _).
  split; [exact Hres | exact Hfiles].
Defined.

Lemma append_cancel_r (a b t : string) : a +:+ t = b +:+ t -> a = b.
Proof.
  intros H.
  assert (Hlen : String.length a = String.length b).
  { apply (f_equal String.length) in H. rewrite !length_append in H. lia. }
  revert b H Hlen. induction a as [|x a IH]; intros [|y b] H Hlen;
    simpl in *; try discriminate; [reflexivity |].
  injection H as -> H. f_equal. apply IH; [exact H | lia].
Qed.

Lemma report_path_inj (__dirname : string) (B1 B2 : list byte) :
  report_path __dirname B1 = report_path __dirname B2 ->
  Sha256.sha256_hex B1 = Sha256.sha256_hex B2.
Proof.
  unfold report_path, path_join. intros H.
  apply String.app_inj in H. apply String.app_inj in H.
  exact (append_cancel_r _ _ _ H).
Qed.

(** X4. When the file system works, two uploads whose digests differ are
    stored at different paths: after the second, the report of the first is
    still in the store, unchanged, beside the report of the second. *)
Theorem distinct_uploads_coexist (__dirname : string) (os : io) (store : fs)
        (chunks1 chunks2 : list (list byte))
        (trace1 trace2 : list Pipeline.event) :
  let first := Pipeline.srv (Pipeline.serve __dirname os store trace1) in
  let second := Pipeline.srv (Pipeline.serve __dirname os (disk first) trace2) in
  let B1 := concat chunks1 in
  let B2 := concat chunks2 in
  (forall call, os call = None) ->
  whole_upload __dirname os store chunks1 trace1 ->
  whole_upload __dirname os (disk first) chunks2 trace2 ->
  Sha256.sha256_hex B1 <> Sha256.sha256_hex B2 ->
  report_path __dirname B1 <> report_path __dirname B2 /\
  files (disk second) !! report_path __dirname B1 = Some (report_content B1) /\
  files (disk second) !! report_path __dirname B2 = Some (report_content B2) /\
  files (disk second) =
    <[report_path __dirname B2 := report_content B2]>
      (<[report_path __dirname B1 := report_content B1]> (files store)).
Proof.
  intros first second B1 B2 Hos H1 H2 Hne.
  assert (Hp : report_path __dirname B1 <> report_path __dirname B2).
  { intros H. apply Hne. exact (report_path_inj _ _ _ H). }
  assert (Hnone : forall B, first_failure os (persist_calls __dirname B) = None).
  { intros B. simpl. now rewrite !Hos. }
  destruct (whole_upload_handled _ _ _ _ _ H1) as [body1 Hc1].
  destruct (whole_upload_handled _ _ _ _ _ H2) as [body2 Hc2].
  fold B1 in Hc1. fold B2 in Hc2. rewrite Hnone in Hc1, Hc2.
  fold first in Hc1, Hc2. fold second in Hc2.
  rewrite Hc2. simpl. rewrite Hc1. simpl.
  split; [exact Hp |]. split; [| split; [| reflexivity]].
  - rewrite lookup_insert_ne by (intros H; apply Hp; now symmetry).
    apply lookup_insert_eq.
  - apply lookup_insert_eq.
Qed.

Lemma distinct_uploads_coexist_witness :
  let chunks1 := [bytes_of "ok"] in
  let chunks2 := [bytes_of "ERROR x"] in
  let trace1 := Pipeline.upload_trace chunks1 in
  let trace2 := Pipeline.upload_trace chunks2 in
  let first := Pipeline.srv (Pipeline.serve "/srv/app" no_fail disk0 trace1) in
  let second :=
    Pipeline.srv (Pipeline.serve "/srv/app" no_fail (disk first) trace2) in
  ((forall call, no_fail call = None) /\
   whole_upload "/srv/app" no_fail disk0 chunks1 trace1 /\
   whole_upload "/srv/app" no_fail (disk first) chunks2 trace2 /\
   Sha256.sha256_hex (concat chunks1) <> Sha256.sha256_hex (concat chunks2)) /\
  files (disk second) !! report_path "/srv/app" (concat chunks1) =
    Some (report_content (concat chunks1)).
Proof.
  intros chunks1 chunks2 trace1 trace2 first second.
  assert (H1 : whole_upload "/srv/app" no_fail disk0 chunks1 trace1).
  { split; [reflexivity | vm_compute; reflexivity]. }
  assert (H2 : whole_upload "/srv/app" no_fail (disk first) chunks2 trace2).
  { split; [reflexivity | vm_compute; reflexivity]. }
  assert (H3 : Sha256.sha256_hex (concat chunks1)
               <> Sha256.sha256_hex (concat chunks2)).
  { vm_compute. discriminate. }
  split; [split; [reflexivity | split; [exact H1 | split; [exact H2 | exact H3]]] |].
  exact (proj1 (proj2 (distinct_uploads_coexist "/srv/app" no_fail disk0
                         chunks1 chunks2 trace1 trace2
                         (fun _ => eq_refl) H1 H2 H3))).
Defined.

End UploadOutcomes.

(* ===================================================================== *)
(** * The connection of one upload, over every trace of events *)

Section Connection.

Import LogProcessor Server Pipeline.

Variable __dirname : string.
Variable os : io.

Local Abbreviation step := (Pipeline.step __dirname os).
Local Abbreviation serve := (Pipeline.serve __dirname os).

Lemma serve_app (store : fs) (t1 t2 : list event) :
  serve store (t1 ++ t2) = fold_left step t2 (serve store t1).
Proof. unfold Pipeline.serve. apply fold_left_app. Qed.

Lemma respond_keeps (c : conn) (r' : response) :
  inbox (respond c r') = inbox c /\
  terminated (respond c r') = terminated c /\
  disk (respond c r') = disk c /\
  (forall r, res c = Some r -> res (respond c r') = Some r).
Proof.
  unfold respond. destruct (res c); simpl; repeat split; auto; discriminate.
Qed.

(** The report handler changes neither the state of the worker thread nor
    an answer that is written. *)
Lemma on_worker_message_keeps (c : conn) (report : Js.value) :
  terminated (on_worker_message __dirname os c report) = terminated c /\
  (forall r, res c = Some r ->
             res (on_worker_message __dirname os c report) = Some r).
Proof.
  destruct c as [ib t r d cr].
  unfold on_worker_message. destruct (validate report) as [e | h].
  - unfold catch, respond. simpl. destruct r; split; auto; discriminate.
  - unfold store_and_respond, mkdir, writeFile, catch, respond, with_disk.
    simpl. destruct (os (Mkdir _)); simpl.
    + destruct r; split; auto; discriminate.
    + destruct (Js.stringify_indent2 report); simpl.
      * destruct (os (WriteFile _ _)); simpl; destruct r; split; auto;
          discriminate.
      * destruct r; split; auto; discriminate.
Qed.

Lemma deliver_keeps (reports : list Js.value) (c : conn) :
  inbox (deliver __dirname os c reports) = inbox c /\
  terminated (deliver __dirname os c reports) = terminated c /\
  (forall r, res c = Some r ->
             res (deliver __dirname os c reports) = Some r).
Proof.
  unfold deliver. revert c.
  induction reports as [|report reports IH]; intros c; simpl; [auto |].
  destruct (IH (on_worker_message __dirname os c report)) as (Hi & Ht & Hr).
  destruct (on_worker_message_keeps c report) as (Ht' & Hr').
  rewrite Hi, Ht, on_worker_message_inbox. auto.
Qed.

Lemma signal_keeps (c : conn) (w : state) :
  inbox (signal c w) = inbox c /\
  terminated (signal c w) = terminated c /\
  disk (signal c w) = disk c /\
  (forall r, res c = Some r -> res (signal c w) = Some r).
Proof.
  unfold signal, on_worker_error. destruct (fault w); [| auto].
  apply respond_keeps.
Qed.

(** What a turn of the running worker on the message [m] does. *)
Lemma turn_effect (s : system) (m : message) (rest : list message) :
  running s = true ->
  inbox (srv s) = m :: rest ->
  wrk (step s WorkerTurn) = on_message (wrk s) m /\
  inbox (srv (step s WorkerTurn)) = rest /\
  terminated (srv (step s WorkerTurn)) = terminated (srv s).
Proof.
  intros Hrun Hin. unfold Pipeline.step. rewrite Hrun, Hin.
  cbv zeta. cbn [wrk srv].
  split; [reflexivity |].
  destruct (signal_keeps
              (deliver __dirname os (take (srv s) rest)
                 (skipn (length (posted (wrk s)))
                        (posted (on_message (wrk s) m))))
              (on_message (wrk s) m)) as (Hi & Ht & _).
  destruct (deliver_keeps
              (skipn (length (posted (wrk s))) (posted (on_message (wrk s) m)))
              (take (srv s) rest)) as (Hi' & Ht' & _).
  rewrite Hi, Ht, Hi', Ht'. split; reflexivity.
Qed.

Lemma answer_stands_step (s : system) (ev : event) (r : response) :
  res (srv s) = Some r -> res (srv (step s ev)) = Some r.
Proof.
  intros Hr. destruct ev as [chunk | | | | e]; cbn [Pipeline.step].
  - exact Hr.
  - exact Hr.
  - cbn [srv]. unfold on_req_error.
    apply respond_keeps. exact Hr.
  - destruct (running s); [| exact Hr].
    destruct (inbox (srv s)) as [|m rest]; [exact Hr |].
    cbv zeta. cbn [srv]. apply signal_keeps, deliver_keeps. exact Hr.
  - destruct (running s); [| exact Hr].
    cbv zeta. cbn [srv]. apply signal_keeps. exact Hr.
Qed.

Lemma answer_stands (tr : list event) (s : system) (r : response) :
  res (srv s) = Some r -> res (srv (fold_left step tr s)) = Some r.
Proof.
  revert s. induction tr as [|ev tr IH]; intros s Hr; [exact Hr |].
  simpl. apply IH, answer_stands_step, Hr.
Qed.

(** A call of [terminate()] is not taken back. *)
Lemma terminated_step (s : system) (ev : event) :
  terminated (srv s) = true -> terminated (srv (step s ev)) = true.
Proof.
  intros Ht.
  assert (Hrun : running s = false) by (unfold running; now rewrite Ht).
  destruct ev as [chunk | | | | e]; cbn [Pipeline.step]; rewrite ?Hrun;
    try exact Ht.
  cbn [srv]. unfold on_req_error.
  destruct (respond_keeps (terminate (srv s))
              (Response 500 "text/plain" "Request stream error."))
    as (_ & Hterm & _).
  rewrite Hterm. reflexivity.
Qed.

Lemma terminated_run (tr : list event) (s : system) :
  terminated (srv s) = true -> terminated (srv (fold_left step tr s)) = true.
Proof.
  revert s. induction tr as [|ev tr IH]; intros s Hs; [exact Hs |].
  simpl. apply IH, terminated_step, Hs.
Qed.

(** Nothing reaches the store before the worker reports. *)
Lemma store_untouched_step (store : fs) (s : system) (ev : event) :
  (posted (wrk s) = [] -> disk (srv s) = store) ->
  posted (wrk (step s ev)) = [] -> disk (srv (step s ev)) = store.
Proof.
  intros Inv. destruct ev as [chunk | | | | e]; cbn [Pipeline.step].
  - exact Inv.
  - exact Inv.
  - cbn [srv wrk]. intros Hp. unfold on_req_error.
    destruct (respond_keeps (terminate (srv s))
                (Response 500 "text/plain" "Request stream error."))
      as (_ & _ & Hd & _).
    rewrite Hd. apply Inv, Hp.
  - destruct (running s); [| exact Inv].
    destruct (inbox (srv s)) as [|m rest]; [exact Inv |].
    cbv zeta. cbn [srv wrk]. intros Hnil.
    destruct (on_message_posted (wrk s) m) as (fresh & Hp & _).
    rewrite Hnil in Hp. symmetry in Hp. apply app_eq_nil in Hp as [Hw _].
    rewrite Hnil, Hw. cbn [length skipn].
    destruct (signal_keeps (deliver __dirname os (take (srv s) rest) [])
                           (on_message (wrk s) m)) as (_ & _ & Hd & _).
    rewrite Hd. apply Inv, Hw.
  - destruct (running s); [| exact Inv].
    cbv zeta. cbn [srv wrk]. intros Hp.
    destruct (signal_keeps (srv s) (throw (wrk s) e)) as (_ & _ & Hd & _).
    rewrite Hd. apply Inv, Hp.
Qed.

Lemma store_untouched (store : fs) (trace : list event) :
  posted (wrk (serve store trace)) = [] ->
  disk (srv (serve store trace)) = store.
Proof.
  unfold Pipeline.serve.
  assert (G : forall tr s,
             (posted (wrk s) = [] -> disk (srv s) = store) ->
             posted (wrk (fold_left step tr s)) = [] ->
             disk (srv (fold_left step tr s)) = store).
  { induction tr as [|ev tr IH]; intros s Hs; [exact Hs |].
    simpl. apply IH, store_untouched_step, Hs. }
  apply G. reflexivity.
Qed.

(** What the last event of the request side of an upload can be. *)
Lemma request_side_last (trace : list event) (ev : event)
      (cs : list (list byte)) (ended : bool) :
  request_side (trace ++ [ev]) =
    (map ReqData cs ++ if ended then [ReqEnd] else [])%list ->
  (ev = WorkerTurn /\
   request_side trace =
     (map ReqData cs ++ if ended then [ReqEnd] else [])%list) \/
  (ev = ReqEnd /\ ended = true /\
   request_side trace = (map ReqData cs ++ [])%list) \/
  (exists ch cs0, ev = ReqData ch /\ ended = false /\
                  cs = (cs0 ++ [ch])%list /\
                  request_side trace = (map ReqData cs0 ++ [])%list).
Proof.
  unfold request_side. rewrite List.filter_app.
  fold (request_side trace). intros Hreq.
  assert (Hlast :
            request_side trace ++ [ev] =
              (map ReqData cs ++ if ended then [ReqEnd] else [])%list ->
            (ended = true /\ ev = ReqEnd /\
             request_side trace = map ReqData cs) \/
            (ended = false /\ exists ch cs0,
               ev = ReqData ch /\ cs = (cs0 ++ [ch])%list /\
               request_side trace = map ReqData cs0)).
  { intros H. destruct ended.
    - apply app_inj_tail in H as [H1 H2]. left. auto.
    - rewrite app_nil_r in H. right. split; [reflexivity |].
      destruct cs as [|c0 cs0] using rev_ind.
      + destruct (request_side trace); discriminate.
      + rewrite map_app in H. simpl in H.
        apply app_inj_tail in H as [H1 H2]. eauto. }
  destruct ev as [ch | | | | e]; simpl in Hreq.
  - destruct (Hlast Hreq)
      as [(_ & Habs & _) | (He & ch' & cs0 & Hev & Hcs & Ht)];
      [discriminate |].
    injection Hev as <-. right. right. exists ch, cs0.
    rewrite app_nil_r. auto.
  - destruct (Hlast Hreq)
      as [(He & _ & Ht) | (_ & ch' & cs0 & Habs & _)]; [| discriminate].
    right. left. rewrite app_nil_r. auto.
  - destruct (Hlast Hreq)
      as [(_ & Habs & _) | (_ & ch' & cs0 & Habs & _)]; discriminate.
  - left. rewrite app_nil_r in Hreq. auto.
  - destruct (Hlast Hreq)
      as [(_ & Habs & _) | (_ & ch' & cs0 & Habs & _)]; discriminate.
Qed.

Lemma at_work_turn (cs : list (list byte)) (ended : bool) (s : system) :
  at_work cs ended s -> at_work cs ended (step s WorkerTurn).
Proof.
  intros [Ht [(taken & waiting & Hcs & Hw & Hin) | (He & Hin & Hw)]].
  - assert (Hrec : receiving (absorb init (concat taken)))
      by apply receiving_absorb, receiving_init.
    assert (Hrun : running s = true).
    { unfold running. rewrite Ht, Hw.
      destruct Hrec as (Hf & _). now rewrite Hf. }
    destruct waiting as [|ch waiting].
    + destruct ended; simpl in Hin.
      * destruct (turn_effect s end_message [] Hrun Hin) as (Hw' & Hin' & Ht').
        split; [congruence |]. right.
        rewrite app_nil_r in Hcs. subst cs.
        split; [reflexivity |]. split; [exact Hin' |].
        rewrite Hw', Hw. symmetry. apply analyse_absorb.
      * unfold Pipeline.step. rewrite Hrun, Hin.
        split; [exact Ht |]. left. exists taken, []. auto.
    + simpl in Hin.
      destruct (turn_effect s (chunk_message ch) _ Hrun Hin)
        as (Hw' & Hin' & Ht').
      split; [congruence |]. left.
      exists (taken ++ [ch])%list, waiting.
      split; [rewrite <- List.app_assoc; exact Hcs |].
      split; [| exact Hin'].
      rewrite Hw', Hw, (on_chunk _ ch Hrec).
      rewrite concat_app. simpl. now rewrite app_nil_r, absorb_app.
  - unfold Pipeline.step. rewrite Hin.
    destruct (running s); split; auto.
Qed.

(** While the body of an upload arrives and after it has ended, the server
    has not terminated the worker, whatever it has answered. *)
Lemma at_work_serve (store : fs) (trace : list event) :
  forall (cs : list (list byte)) (ended : bool),
    request_side trace =
      (map ReqData cs ++ if ended then [ReqEnd] else [])%list ->
    at_work cs ended (serve store trace).
Proof.
  induction trace as [|ev trace IH] using rev_ind; intros cs ended Hreq.
  - destruct cs; [| discriminate]. destruct ended; [discriminate |].
    split; [reflexivity |]. left. exists [], [].
    simpl. rewrite absorb_nil. auto.
  - rewrite serve_app. cbn [fold_left].
    destruct (request_side_last _ _ _ _ Hreq)
      as [(-> & Ht) | [(-> & -> & Ht) | (ch & cs0 & -> & -> & -> & Ht)]].
    + apply at_work_turn, IH, Ht.
    + destruct (IH cs false Ht)
        as [Hterm [(taken & waiting & Hcs & Hw & Hin) | (He & _)]];
        [| discriminate].
      split; [exact Hterm |]. left. exists taken, waiting.
      cbn [Pipeline.step srv wrk]. unfold on_req_end, postMessage.
      cbn [inbox]. rewrite Hin, !app_nil_r. auto.
    + destruct (IH cs0 false Ht)
        as [Hterm [(taken & waiting & Hcs & Hw & Hin) | (He & _)]];
        [| discriminate].
      split; [exact Hterm |]. left. exists taken, (waiting ++ [ch])%list.
      cbn [Pipeline.step srv wrk]. unfold on_req_data, postMessage.
      cbn [inbox]. rewrite Hin, !app_nil_r, map_app, Hcs, <- List.app_assoc.
      auto.
Qed.

(** X5. An answer that is written stands: whatever events follow (more
    data, errors of the request, reports or faults of the worker), the
    status, the content type and the body of the response stay as they
    were first written. *)
Theorem first_answer_stands (store : fs) (t1 t2 : list event) (r : response) :
  res (srv (serve store t1)) = Some r ->
  res (srv (serve store (t1 ++ t2))) = Some r.
Proof. intros Hr. rewrite serve_app. apply answer_stands, Hr. Qed.

(** X6. An error of the request stream: [terminate()] is called on the
    worker, and the upload is answered for good. The answer is 500
    'Request stream error.' when none had been written before the error,
    and the answer written before it otherwise; no event that follows
    changes it. *)
Theorem request_error_final (store : fs) (t1 t2 : list event) :
  let before := serve store t1 in
  let s := serve store (t1 ++ ReqError :: t2) in
  terminated (srv s) = true /\
  (res (srv before) = None ->
   res (srv s) = Some (Response 500 "text/plain" "Request stream error.")) /\
  (forall r, res (srv before) = Some r -> res (srv s) = Some r).
Proof.
  intros before s. subst s. rewrite serve_app. cbn [fold_left]. fold before.
  split; [| split].
  - apply terminated_run. cbn [Pipeline.step srv]. unfold on_req_error.
    destruct (respond_keeps (terminate (srv before))
                (Response 500 "text/plain" "Request stream error."))
      as (_ & Hterm & _).
    rewrite Hterm. reflexivity.
  - intros Hnone. apply answer_stands.
    cbn [Pipeline.step srv]. unfold on_req_error, respond, terminate.
    simpl. now rewrite Hnone.
  - intros r Hr. apply answer_stands, answer_stands_step, Hr.
Qed.

(** X7. Nothing reaches the store before the worker reports: in an upload
    whose request stream does not fail, as long as the worker has posted
    no report, no directory is made, no file is written and no call to
    the file system is made, also when the worker throws. Traces with a
    request error are left out: after [terminate()] the worker of the model
    stops at once, the thread of the program as soon as it can. *)
Theorem nothing_stored_before_report (store : fs) (trace : list event) :
  Forall (fun ev => ev <> ReqError) trace ->
  posted (wrk (serve store trace)) = [] ->
  disk (srv (serve store trace)) = store.
Proof. intros _. apply store_untouched. Qed.

(** X8. The server never terminates the worker of an upload that arrives
    whole: after the answer the worker thread is still running, in the
    state its analysis ended in, with its one report posted. *)
Theorem worker_left_running (store : fs) (chunks : list (list byte))
        (trace : list event) :
  whole_upload __dirname os store chunks trace ->
  let s := serve store trace in
  terminated (srv s) = false /\
  running s = true /\
  wrk s = analyse chunks /\
  posted (wrk s) = [report_for (concat chunks)].
Proof.
  intros [Hreq Hempty] s.
  destruct (at_work_serve store trace chunks true Hreq)
    as [Ht [(taken & waiting & _ & _ & Hin) | (_ & _ & Hw)]].
  - fold serve in Hempty. rewrite Hin in Hempty.
    destruct (map chunk_message waiting); discriminate.
  - fold s in Ht, Hw.
    destruct (analyse_report chunks) as [Hp Hf].
    unfold running. rewrite Ht, Hw, Hf, Hp. repeat split.
Qed.

End Connection.

Lemma first_answer_stands_witness :
  Server.res (Pipeline.srv (Pipeline.serve "/srv/app" no_fail disk0
     [Pipeline.ReqData (bytes_of "ok"); Pipeline.ReqError])) =
    Some (Server.Response 500 "text/plain" "Request stream error.") /\
  Server.res (Pipeline.srv (Pipeline.serve "/srv/app" no_fail disk0
     ([Pipeline.ReqData (bytes_of "ok"); Pipeline.ReqError] ++
      [Pipeline.ReqEnd; Pipeline.WorkerTurn; Pipeline.WorkerTurn;
       Pipeline.WorkerFault (Js.Error "late")]))) =
    Some (Server.Response 500 "text/plain" "Request stream error.").
Proof.
  split; [vm_compute; reflexivity |].
  apply (first_answer_stands "/srv/app" no_fail). vm_compute. reflexivity.
Defined.

Lemma nothing_stored_before_report_witness :
  let trace := [Pipeline.ReqData (bytes_of ("ERROR a" +:+ nl));
                Pipeline.WorkerTurn;
                Pipeline.WorkerFault (Js.Error "out of memory");
                Pipeline.ReqEnd; Pipeline.WorkerTurn] in
  (Forall (fun ev => ev <> Pipeline.ReqError) trace /\
   LogProcessor.posted
     (Pipeline.wrk (Pipeline.serve "/srv/app" no_fail disk0 trace)) = []) /\
  Server.disk (Pipeline.srv (Pipeline.serve "/srv/app" no_fail disk0 trace))
    = disk0.
Proof.
  intros trace.
  assert (H1 : Forall (fun ev => ev <> Pipeline.ReqError) trace).
  { repeat (constructor; [discriminate |]). constructor. }
  assert (H2 : LogProcessor.posted
                 (Pipeline.wrk (Pipeline.serve "/srv/app" no_fail disk0 trace))
               = []).
  { vm_compute. reflexivity. }
  split; [split; assumption |].
  exact (nothing_stored_before_report "/srv/app" no_fail disk0 trace H1 H2).
Defined.

Lemma worker_left_running_witness :
  let chunks := [bytes_of "ok"; bytes_of (nl +:+ "ERROR x")] in
  let trace := [Pipeline.ReqData (bytes_of "ok"); Pipeline.WorkerTurn;
                Pipeline.ReqData (bytes_of (nl +:+ "ERROR x"));
                Pipeline.ReqEnd; Pipeline.WorkerTurn; Pipeline.WorkerTurn] in
  whole_upload "/srv/app" no_fail disk0 chunks trace /\
  Pipeline.running (Pipeline.serve "/srv/app" no_fail disk0 trace) = true.
Proof.
  intros chunks trace.
  assert (H : whole_upload "/srv/app" no_fail disk0 chunks trace).
  { split; [reflexivity | vm_compute; reflexivity]. }
  split; [exact H |].
  exact (proj1 (proj2 (worker_left_running "/srv/app" no_fail disk0
                         chunks trace H))).
Defined.

(* ===================================================================== *)
(** * What an upload can write *)

Section StoreWrites.

Import LogProcessor Server Pipeline.

(** Every report the worker posts carries a digest in hexadecimal. *)
Lemma on_message_reports (st : state) (m : message) :
  exists fresh,
    posted (on_message st m) = (posted st ++ fresh)%list /\
    Forall (fun r => exists c lc ec, r = report_of (Sha256.digest_hex c) lc ec)
           fresh.
Proof.
  assert (Hnone : posted st = (posted st ++ [])%list)
    by now rewrite app_nil_r.
  unfold on_message.
  destruct (fault st) eqn:Hf; [exists []; split; [exact Hnone | constructor] |].
  destruct (String.eqb (type m) "chunk").
  - exists []. split; [| constructor].
    unfold hash_update.
    destruct (hash_finalized st); simpl; [exact Hnone |].
    rewrite Hf. unfold push. simpl.
    destruct (incomingStream_ended st); [exact Hnone |].
    destruct (data m) as [|b bs]; [exact Hnone |].
    destruct (Readline.normalWrite (rl st) (b :: bs)) as [r lines].
    rewrite fold_on_line. exact Hnone.
  - destruct (String.eqb (type m) "end");
      [| exists []; split; [exact Hnone | constructor]].
    unfold push_null.
    destruct (incomingStream_ended st);
      [exists []; split; [exact Hnone | constructor] |].
    destruct (Readline.onend _) as [[r lines] close].
    rewrite fold_on_line.
    destruct close; [| exists []; split; [exact Hnone | constructor]].
    unfold on_close. simpl.
    destruct (hash_finalized st); simpl.
    + exists []. split; [exact Hnone | constructor].
    + eexists. split; [reflexivity |].
      constructor; [eauto | constructor].
Qed.

Lemma made_same (x : string) (D : gset string) : D ⊆ {[x]} ∪ D.
Proof. apply union_subseteq_r. Qed.

Lemma made_trans (x : string) (A B C : gset string) :
  A ⊆ {[x]} ∪ B -> B ⊆ {[x]} ∪ C -> A ⊆ {[x]} ∪ C.
Proof.
  intros H1 H2 y Hy. apply H1 in Hy.
  apply elem_of_union in Hy as [Hy | Hy]; [| apply H2, Hy].
  apply elem_of_union. left. exact Hy.
Qed.

Variable __dirname : string.
Variable os : io.

Local Abbreviation step := (Pipeline.step __dirname os).

Lemma store_writes (c : conn) (report : Js.value) (h path : string) :
  path <> path_join (REPORTS_DIR __dirname) (h +:+ ".json") ->
  files (disk (store_and_respond __dirname os c report h)) !! path =
    files (disk c) !! path /\
  dirs (disk (store_and_respond __dirname os c report h)) ⊆
    {[REPORTS_DIR __dirname]} ∪ dirs (disk c).
Proof.
  intros Hp. destruct c as [ib t r d cr].
  unfold store_and_respond, mkdir, writeFile, catch, respond, with_disk.
  simpl. destruct (os (Mkdir _)); simpl.
  - destruct r; simpl; split; try reflexivity; apply made_same.
  - destruct (Js.stringify_indent2 report); simpl.
    + destruct (os (WriteFile _ _)); simpl;
        [destruct (written os _ _) |]; destruct r; simpl;
        (split; [| reflexivity]); try reflexivity;
        apply lookup_insert_ne; congruence.
    + destruct r; simpl; split; reflexivity.
Qed.

Lemma handler_writes (c : conn) (report : Js.value) (path : string) :
  (exists ctx lc ec, report = report_of (Sha256.digest_hex ctx) lc ec) ->
  ~ report_file __dirname path ->
  files (disk (on_worker_message __dirname os c report)) !! path =
    files (disk c) !! path /\
  dirs (disk (on_worker_message __dirname os c report)) ⊆
    {[REPORTS_DIR __dirname]} ∪ dirs (disk c).
Proof.
  intros (ctx & lc & ec & ->) Hp. unfold on_worker_message.
  rewrite validate_report_of by (rewrite digest_hex_length; lia).
  apply store_writes. intros ->. apply Hp.
  exists (Sha256.digest_hex ctx). split; [apply digest_hex_length | reflexivity].
Qed.

Lemma deliver_writes (reports : list Js.value) (c : conn) (path : string) :
  Forall (fun r => exists ctx lc ec, r = report_of (Sha256.digest_hex ctx) lc ec)
         reports ->
  ~ report_file __dirname path ->
  files (disk (deliver __dirname os c reports)) !! path =
    files (disk c) !! path /\
  dirs (disk (deliver __dirname os c reports)) ⊆
    {[REPORTS_DIR __dirname]} ∪ dirs (disk c).
Proof.
  intros Hall Hp. unfold deliver. revert c.
  induction Hall as [|report reports Hr _ IH]; intros c; simpl;
    [split; [reflexivity | apply made_same] |].
  destruct (IH (on_worker_message __dirname os c report)) as [Hf Hd].
  destruct (handler_writes c report path Hr Hp) as [Hf' Hd'].
  rewrite Hf, Hf'. split; [reflexivity | exact (made_trans _ _ _ _ Hd Hd')].
Qed.

Lemma step_writes (s : system) (ev : event) (path : string) :
  ~ report_file __dirname path ->
  files (disk (srv (step s ev))) !! path = files (disk (srv s)) !! path /\
  dirs (disk (srv (step s ev))) ⊆
    {[REPORTS_DIR __dirname]} ∪ dirs (disk (srv s)).
Proof.
  intros Hp.
  assert (Hsame : files (disk (srv s)) !! path = files (disk (srv s)) !! path /\
                  dirs (disk (srv s)) ⊆
                    {[REPORTS_DIR __dirname]} ∪ dirs (disk (srv s)))
    by (split; [reflexivity | apply made_same]).
  assert (Hsig : forall c w, disk (signal c w) = disk c).
  { intros c w. unfold signal, on_worker_error, respond.
    destruct (fault w); [| reflexivity]. destruct (res c); reflexivity. }
  destruct ev as [chunk | | | | e]; cbn [Pipeline.step].
  - exact Hsame.
  - exact Hsame.
  - cbn [srv]. unfold on_req_error, respond, terminate. simpl.
    destruct (res (srv s)); exact Hsame.
  - destruct (running s); [| exact Hsame].
    destruct (inbox (srv s)) as [|m rest]; [exact Hsame |].
    cbv zeta. cbn [srv]. rewrite Hsig.
    destruct (on_message_reports (wrk s) m) as (fresh & Hposted & Hall).
    rewrite Hposted, skipn_posted.
    apply (deliver_writes fresh (take (srv s) rest) path Hall Hp).
  - destruct (running s); [| exact Hsame].
    cbv zeta. cbn [srv]. rewrite Hsig. exact Hsame.
Qed.

Lemma serve_writes (store : fs) (trace : list event) (path : string) :
  ~ report_file __dirname path ->
  let s := Pipeline.serve __dirname os store trace in
  files (disk (srv s)) !! path = files store !! path /\
  dirs (disk (srv s)) ⊆ {[REPORTS_DIR __dirname]} ∪ dirs store.
Proof.
  intros Hp. unfold Pipeline.serve.
  assert (G : forall tr s,
             files (disk (srv (fold_left step tr s))) !! path =
               files (disk (srv s)) !! path /\
             dirs (disk (srv (fold_left step tr s))) ⊆
               {[REPORTS_DIR __dirname]} ∪ dirs (disk (srv s))).
  { induction tr as [|ev tr IH]; intros s; simpl;
      [split; [reflexivity | apply made_same] |].
    destruct (IH (step s ev)) as [Hf Hd].
    destruct (step_writes s ev path Hp) as [Hf' Hd'].
    rewrite Hf, Hf'. split; [reflexivity | exact (made_trans _ _ _ _ Hd Hd')]. }
  apply G.
Qed.

(** X9. Whatever the events of an upload and whatever the file system
    answers, the only files an upload changes are files of the reports
    directory named [<64 characters>.json], and the only directory it can
    make is the reports directory. *)
Theorem uploads_write_reports_only (store : fs) (trace : list event)
        (path : string) :
  ~ report_file __dirname path ->
  let s := Pipeline.serve __dirname os store trace in
  files (disk (srv s)) !! path = files store !! path /\
  dirs (disk (srv s)) ⊆ {[REPORTS_DIR __dirname]} ∪ dirs store.
Proof. apply serve_writes. Qed.

(** ** The answers an upload can get *)

Hypothesis os_errors :
  forall call e, os call = Some e -> Js.instanceof_AssertionError e = false.

Lemma respond_answer (c : conn) (r' r : response) :
  res (respond c r') = Some r -> res c = Some r \/ r = r'.
Proof.
  unfold respond. destruct (res c) as [r0 |]; simpl; intros H.
  - left. exact H.
  - right. congruence.
Qed.

Lemma catch_answer (c : conn) (e : Js.error) (r : response) :
  Js.instanceof_AssertionError e = false ->
  res (catch c e) = Some r -> res c = Some r \/ upload_answer r.
Proof.
  intros He H. unfold catch in H. rewrite He in H.
  apply respond_answer in H as [H | ->]; [left; exact H |].
  right. right. split; reflexivity.
Qed.

Lemma handler_answer (c : conn) (report : Js.value) (r : response) :
  (exists ctx lc ec, report = report_of (Sha256.digest_hex ctx) lc ec) ->
  res (on_worker_message __dirname os c report) = Some r ->
  res c = Some r \/ upload_answer r.
Proof.
  intros (ctx & lc & ec & ->). unfold on_worker_message.
  rewrite validate_report_of by (rewrite digest_hex_length; lia).
  unfold store_and_respond, mkdir.
  destruct (os (Mkdir (REPORTS_DIR __dirname))) as [e |] eqn:Hmk.
  - intros H. apply catch_answer in H; [exact H | exact (os_errors _ _ Hmk)].
  - destruct (Js.stringify_indent2 _) as [content |].
    + unfold writeFile.
      cbn [with_disk disk res inbox terminated crashed dirs files calls].
      destruct (os (WriteFile _ content)) as [e |] eqn:Hwr.
      * intros H. apply catch_answer in H; [exact H | exact (os_errors _ _ Hwr)].
      * cbn [with_disk disk res inbox terminated crashed dirs files calls].
        destruct (res c) as [r0 |] eqn:Hres.
        -- intros H. apply catch_answer in H; [| reflexivity].
           rewrite <- Hres. exact H.
        -- intros H. apply respond_answer in H as [H | ->].
           ++ change (res c = Some r) in H. congruence.
           ++ right. left. split; reflexivity.
    + intros H. apply catch_answer in H; [exact H | reflexivity].
Qed.

Lemma deliver_answer (reports : list Js.value) (c : conn) (r : response) :
  Forall (fun r => exists ctx lc ec, r = report_of (Sha256.digest_hex ctx) lc ec)
         reports ->
  res (deliver __dirname os c reports) = Some r ->
  res c = Some r \/ upload_answer r.
Proof.
  intros Hall. unfold deliver. revert c.
  induction Hall as [|report reports Hr _ IH]; intros c; simpl; [auto |].
  intros H. apply IH in H as [H | H]; [| right; exact H].
  exact (handler_answer c report r Hr H).
Qed.

Lemma signal_answer (c : conn) (w : state) (r : response) :
  res (signal c w) = Some r -> res c = Some r \/ upload_answer r.
Proof.
  unfold signal, on_worker_error. destruct (fault w); [| auto].
  intros H. apply respond_answer in H as [H | ->]; [left; exact H |].
  right. right. split; reflexivity.
Qed.

Lemma step_answer (s : system) (ev : event) (r : response) :
  res (srv (step s ev)) = Some r ->
  res (srv s) = Some r \/ upload_answer r.
Proof.
  destruct ev as [chunk | | | | e]; cbn [Pipeline.step].
  - auto.
  - auto.
  - cbn [srv]. unfold on_req_error. intros H.
    apply respond_answer in H as [H | ->]; [left; exact H |].
    right. right. split; reflexivity.
  - destruct (running s); [| auto].
    destruct (inbox (srv s)) as [|m rest]; [auto |].
    cbv zeta. cbn [srv]. intros H.
    apply signal_answer in H as [H | H]; [| right; exact H].
    destruct (on_message_reports (wrk s) m) as (fresh & Hposted & Hall).
    rewrite Hposted, skipn_posted in H.
    apply (deliver_answer fresh _ r Hall) in H. exact H.
  - destruct (running s); [| auto].
    cbv zeta. cbn [srv]. apply signal_answer.
Qed.

(** X17. No upload is answered 400. When the file system fails with its
    own errors, whatever the events of the upload, an answer is either 200
    with the report as JSON or 500 in plain text: the reports this worker
    posts always pass the validation of the server. *)
Theorem uploads_answer_200_or_500 (store : fs) (trace : list event)
        (r : response) :
  res (srv (Pipeline.serve __dirname os store trace)) = Some r ->
  upload_answer r.
Proof.
  unfold Pipeline.serve.
  assert (G : forall tr s,
             res (srv (fold_left step tr s)) = Some r ->
             res (srv s) = Some r \/ upload_answer r).
  { induction tr as [|ev tr IH]; intros s; simpl; [auto |].
    intros H. apply IH in H as [H | H]; [| right; exact H].
    exact (step_answer s ev r H). }
  intros H. apply G in H as [H | H]; [discriminate | exact H].
Qed.

End StoreWrites.

(** The archive of [GET /archive] is beside the reports directory, not
    in it. *)
Lemma archive_outside_reports (__dirname rest : string) :
  Routes.archivePath __dirname <>
  Server.REPORTS_DIR __dirname +:+ "/" +:+ rest.
Proof.
  intros H.
  unfold Routes.archivePath, Server.REPORTS_DIR, Server.path_join in H.
  rewrite !append_assoc in H.
  apply String.app_inj in H. simpl in H. discriminate.
Qed.

Lemma archive_is_no_report (__dirname : string) :
  ~ report_file __dirname (Routes.archivePath __dirname).
Proof.
  intros (h & _ & H). unfold Server.path_join in H.
  exact (archive_outside_reports _ _ H).
Qed.

(** X18. Uploads and the archive keep apart: the path that [GET /archive]
    has [tar] write to, [reports.tar.gz], does not lie under the directory
    that [tar] packs, and whatever the events of an upload and whatever the
    file system answers, the file there is as it was before the upload. *)
Theorem uploads_spare_the_archive (__dirname : string) (os : Server.io)
        (store : Server.fs) (trace : list Pipeline.event) :
  let s := Pipeline.serve __dirname os store trace in
  (forall rest, Routes.archivePath __dirname <>
                Server.REPORTS_DIR __dirname +:+ "/" +:+ rest) /\
  Server.files (Server.disk (Pipeline.srv s)) !! Routes.archivePath __dirname =
  Server.files store !! Routes.archivePath __dirname.
Proof.
  intros s. split; [intros rest; apply archive_outside_reports |].
  exact (proj1 (serve_writes __dirname os store trace _
                  (archive_is_no_report __dirname))).
Qed.

Lemma uploads_answer_200_or_500_witness :
  let trace := [Pipeline.ReqData (bytes_of "ok"); Pipeline.ReqEnd;
                Pipeline.WorkerTurn; Pipeline.WorkerTurn] in
  let r := Server.Response 500 "text/plain"
             "Failed to process report: ENOSPC: no space left on device, write" in
  ((forall call e, disk_full call = Some e ->
                   Js.instanceof_AssertionError e = false) /\
   Server.res (Pipeline.srv (Pipeline.serve "/srv/app" disk_full disk0 trace)) =
     Some r) /\
  upload_answer r.
Proof.
  intros trace r.
  assert (H1 : forall call e, disk_full call = Some e ->
                              Js.instanceof_AssertionError e = false).
  { intros [dir | path content] e H; simpl in H; [discriminate |].
    injection H as <-. reflexivity. }
  assert (H2 : Server.res (Pipeline.srv
                 (Pipeline.serve "/srv/app" disk_full disk0 trace)) = Some r).
  { vm_compute. reflexivity. }
  split; [split; assumption |].
  exact (uploads_answer_200_or_500 "/srv/app" disk_full H1 disk0 trace r H2).
Defined.

Lemma uploads_write_reports_only_witness :
  let trace := [Pipeline.ReqData (bytes_of "ok"); Pipeline.ReqEnd;
                Pipeline.WorkerTurn; Pipeline.WorkerTurn] in
  ~ report_file "/srv/app" (Routes.archivePath "/srv/app") /\
  Server.files (Server.disk (Pipeline.srv
     (Pipeline.serve "/srv/app" no_fail disk0 trace)))
    !! Routes.archivePath "/srv/app" =
  Server.files disk0 !! Routes.archivePath "/srv/app".
Proof.
  intros trace. split; [apply archive_is_no_report |].
  exact (proj1 (uploads_write_reports_only "/srv/app" no_fail disk0 trace
                  (Routes.archivePath "/srv/app")
                  (archive_is_no_report "/srv/app"))).
Defined.

(* ===================================================================== *)
(** * The cluster master *)

Section ClusterMaster.

Import Cluster.

(** Taking a listed id off a list without repetition shortens it by one. *)
Lemma remove_listed (id : nat) (l : list nat) :
  List.NoDup l -> List.In id l ->
  S (length (List.filter (id_eqb id) l)) = length l.
Proof.
  induction l as [|x l IH]; intros Hnd Hin; [destruct Hin |].
  apply List.NoDup_cons_iff in Hnd as [Hx Hnd]. simpl.
  unfold id_eqb at 1. destruct (Nat.eqb_spec x id) as [-> | Hne]; simpl.
  - f_equal. clear IH Hin Hnd.
    induction l as [|y l IH]; [reflexivity |]. simpl.
    unfold id_eqb at 1. destruct (Nat.eqb_spec y id) as [-> | _]; simpl.
    + exfalso. apply Hx. left. reflexivity.
    + f_equal. apply IH. intros H. apply Hx. right. exact H.
  - f_equal. apply IH; [exact Hnd |].
    destruct Hin as [Heq | Hin]; [congruence | exact Hin].
Qed.

Lemma fork_sound (m : master) :
  sound m ->
  sound (fork m) /\ length (workers (fork m)) = S (length (workers m)).
Proof.
  intros [Hnd Hlt]. unfold sound, fork. simpl.
  rewrite List.Forall_forall in Hlt.
  split; [split |].
  - apply List.NoDup_app; [exact Hnd | |].
    + constructor; [intros [] | constructor].
    + intros x Hx [<- | []]. specialize (Hlt _ Hx). lia.
  - apply List.Forall_app. split.
    + apply List.Forall_forall. intros a Ha. specialize (Hlt _ Ha). lia.
    + constructor; [lia | constructor].
  - rewrite List.length_app. simpl. lia.
Qed.

Lemma on_exit_sound (m : master) (id : nat) :
  sound m ->
  sound (on_exit m id) /\
  length (workers (on_exit m id)) = length (workers m) /\
  (List.In id (workers m) ->
   ~ List.In id (workers (on_exit m id)) /\
   List.In (next_id m) (workers (on_exit m id))).
Proof.
  intros [Hnd Hlt]. unfold on_exit.
  destruct (existsb (Nat.eqb id) (workers m)) eqn:Hex.
  - apply List.existsb_exists in Hex as (x & Hx & Heq).
    apply Nat.eqb_eq in Heq. subst x.
    assert (Hs : sound (Master (List.filter (id_eqb id) (workers m))
                               (next_id m))).
    { split; simpl; [apply List.NoDup_filter, Hnd |].
      rewrite List.Forall_forall in *. intros w Hw.
      apply List.filter_In in Hw as [Hw _]. apply Hlt, Hw. }
    destruct (fork_sound _ Hs) as [Hs' Hlen].
    split; [exact Hs' |]. split.
    + rewrite Hlen. simpl. apply remove_listed; assumption.
    + intros _. unfold fork. simpl. split.
      * intros Hin. apply List.in_app_iff in Hin as [Hin | [Heq | []]].
        -- apply List.filter_In in Hin as [_ Hne].
           unfold id_eqb in Hne. rewrite Nat.eqb_refl in Hne. discriminate.
        -- rewrite List.Forall_forall in Hlt. specialize (Hlt _ Hx). lia.
      * apply List.in_app_iff. right. left. reflexivity.
  - split; [split; assumption |]. split; [reflexivity |].
    intros Hin. exfalso.
    assert (Habs : existsb (Nat.eqb id) (workers m) = true).
    { apply List.existsb_exists. exists id. split; [exact Hin |].
      apply Nat.eqb_refl. }
    congruence.
Qed.

Lemma start_sound (numCPUs : nat) :
  sound (start numCPUs) /\ length (workers (start numCPUs)) = numCPUs.
Proof.
  unfold start.
  assert (G : forall n m, sound m ->
             sound (fork_all n m) /\
             length (workers (fork_all n m)) = (length (workers m) + n)%nat).
  { induction n as [|n IH]; intros m Hm; simpl; [split; [exact Hm | lia] |].
    destruct (fork_sound m Hm) as [Hf Hlen].
    destruct (IH _ Hf) as [Hs Hl]. split; [exact Hs | lia]. }
  destruct (G numCPUs (Master [] 1)) as [Hs Hl].
  - split; constructor.
  - split; [exact Hs | exact Hl].
Qed.

Lemma run_sound (numCPUs : nat) (exits : list nat) :
  sound (run numCPUs exits) /\
  length (workers (run numCPUs exits)) = numCPUs.
Proof.
  unfold run.
  induction exits as [|id exits IH] using rev_ind;
    [apply start_sound |].
  rewrite fold_left_app. simpl.
  destruct IH as [Hs Hl].
  destruct (on_exit_sound _ id Hs) as (Hs' & Hl' & _).
  split; [exact Hs' | congruence].
Qed.

(** X10. The primary process keeps the pool at its size: after the forks
    of the start and any sequence of worker exits, each answered by one
    fork, the cluster has as many workers as the machine has CPUs and no
    worker is listed twice; a worker that exits then is off the list and
    the worker forked for it, with the next id, is on it. *)
Theorem pool_size_kept (numCPUs : nat) (exits : list nat) :
  let m := run numCPUs exits in
  length (workers m) = numCPUs /\
  List.NoDup (workers m) /\
  forall id, List.In id (workers m) ->
    let m' := run numCPUs (exits ++ [id]) in
    ~ List.In id (workers m') /\ List.In (next_id m) (workers m').
Proof.
  intros m. destruct (run_sound numCPUs exits) as [Hs Hl].
  split; [exact Hl |]. split; [apply Hs |].
  intros id Hin m'. subst m'. unfold run. rewrite fold_left_app. simpl.
  destruct (on_exit_sound _ id Hs) as (_ & _ & Hgone).
  apply Hgone, Hin.
Qed.

End ClusterMaster.

(* ===================================================================== *)
(** * The chunked data processor *)

Section DataProcessing.

Import DataProcessor.

Variable percent : Z -> Z -> Js.value.

Local Abbreviation process := (DataProcessor.process percent).
Local Abbreviation tick := (DataProcessor.tick percent).

Lemma idle (p : t) (n : nat) : timers p = O -> Nat.iter n tick p = p.
Proof.
  intros H. induction n as [|n IH]; [reflexivity |].
  simpl. rewrite IH. unfold DataProcessor.tick. now rewrite H.
Qed.

Lemma process_later (totalItems : Z) (a n : nat) :
  (a <= n)%nat ->
  process totalItems n = Nat.iter (n - a) tick (process totalItems a).
Proof.
  intros H. unfold DataProcessor.process.
  rewrite <- Nat.iter_add. f_equal. lia.
Qed.

(** One call of [_processNextChunk] before item 5 and before the last
    item: the item is counted, announced when it is the first or an even
    one, and the next call is scheduled. *)
Lemma chunk_goes_on (pc total : Z) (ev : list event) :
  pc + 1 <> 5 -> pc + 1 < total ->
  _processNextChunk percent (Processor pc total ev 0) =
  Processor (pc + 1) total
    (ev ++ if (Z.rem (pc + 1) 2 =? 0) || (pc + 1 =? 1)
           then [Progress (pc + 1) (percent (pc + 1) total)] else [])%list
    1.
Proof.
  intros H5 Hlt. unfold _processNextChunk. cbn [processedCount totalCount emitted timers].
  destruct (Z.eqb_spec (pc + 1) 5) as [|_]; [contradiction |].
  destruct ((Z.rem (pc + 1) 2 =? 0) || (pc + 1 =? 1));
    unfold emit, setTimeout; cbn [processedCount totalCount emitted timers];
    destruct (Z.ltb_spec (pc + 1) total); try lia;
    rewrite ?app_nil_r; reflexivity.
Qed.

(** The call on the last item, before item 5. *)
Lemma chunk_finishes (pc total : Z) (ev : list event) :
  pc + 1 <> 5 -> total <= pc + 1 ->
  _processNextChunk percent (Processor pc total ev 0) =
  Processor (pc + 1) total
    ((ev ++ if (Z.rem (pc + 1) 2 =? 0) || (pc + 1 =? 1)
            then [Progress (pc + 1) (percent (pc + 1) total)] else []) ++
     [Finished total "Simulated 50ms total"])%list
    0.
Proof.
  intros H5 Hge. unfold _processNextChunk. cbn [processedCount totalCount emitted timers].
  destruct (Z.eqb_spec (pc + 1) 5) as [|_]; [contradiction |].
  destruct ((Z.rem (pc + 1) 2 =? 0) || (pc + 1 =? 1));
    unfold emit, setTimeout; cbn [processedCount totalCount emitted timers];
    destruct (Z.ltb_spec (pc + 1) total); try lia;
    rewrite ?app_nil_r; reflexivity.
Qed.

Lemma tick_goes_on (pc total : Z) (ev : list event) :
  pc + 1 <> 5 -> pc + 1 < total ->
  tick (Processor pc total ev 1) =
  Processor (pc + 1) total
    (ev ++ if (Z.rem (pc + 1) 2 =? 0) || (pc + 1 =? 1)
           then [Progress (pc + 1) (percent (pc + 1) total)] else [])%list
    1.
Proof. apply chunk_goes_on. Qed.

Lemma tick_finishes (pc total : Z) (ev : list event) :
  pc + 1 <> 5 -> total <= pc + 1 ->
  tick (Processor pc total ev 1) =
  Processor (pc + 1) total
    ((ev ++ if (Z.rem (pc + 1) 2 =? 0) || (pc + 1 =? 1)
            then [Progress (pc + 1) (percent (pc + 1) total)] else []) ++
     [Finished total "Simulated 50ms total"])%list
    0.
Proof. apply chunk_finishes. Qed.

Lemma tick_fails (total : Z) (ev : list event) :
  tick (Processor 4 total ev 1) =
  Processor 5 total
    (ev ++ [Failed (Js.Error
       "Processing failed at item 5 due to simulated server connection loss.")])
    0.
Proof. reflexivity. Qed.

Lemma iterate (n : nat) (p : t) :
  Nat.iter (S n) tick p = Nat.iter n tick (tick p).
Proof. apply Nat.iter_succ_r. Qed.

(** X11. With five items or more the processor never finishes: it
    announces the items 1, 2 and 4, fails at item 5 with the error of the
    simulated connection loss, schedules nothing more and emits nothing
    after the error, however many timers fire. *)
Theorem halts_at_item_five (totalItems : Z) (n : nat) :
  5 <= totalItems -> (4 <= n)%nat ->
  process totalItems n =
  Processor 5 totalItems
    (map (fun i => Progress i (percent i totalItems)) (progress_items 4) ++
     [Failed (Js.Error
        "Processing failed at item 5 due to simulated server connection loss.")])
    0.
Proof.
  intros Htotal Hn. rewrite (process_later totalItems 4 n Hn).
  assert (H4 : process totalItems 4 =
               Processor 5 totalItems
                 (map (fun i => Progress i (percent i totalItems))
                      (progress_items 4) ++
                  [Failed (Js.Error
                     "Processing failed at item 5 due to simulated server connection loss.")])
                 0).
  { unfold DataProcessor.process, startProcessing, create.
    cbn [emitted timers].
    rewrite (chunk_goes_on 0 totalItems []) by lia.
    rewrite iterate, tick_goes_on by lia.
    rewrite iterate, tick_goes_on by lia.
    rewrite iterate, tick_goes_on by lia.
    rewrite iterate. change (0 + 1 + 1 + 1 + 1) with 4.
    rewrite tick_fails. reflexivity. }
  rewrite H4. apply idle. reflexivity.
Qed.

(** X12. With four items or fewer the processor finishes: it counts up to
    the total, announces the first item and the even ones, emits
    ['finished'] once as its last event, with the total it was started
    with, and leaves no timer. A total of zero or less still works one
    item before it finishes. *)
Theorem finishes_small_totals (totalItems : Z) (n : nat) :
  totalItems <= 4 -> (Z.to_nat (totalItems - 1) <= n)%nat ->
  process totalItems n =
  Processor (Z.max 1 totalItems) totalItems
    (map (fun i => Progress i (percent i totalItems))
         (progress_items (Z.max 1 totalItems)) ++
     [Finished totalItems "Simulated 50ms total"])
    0.
Proof.
  intros Htotal Hn.
  rewrite (process_later totalItems (Z.to_nat (totalItems - 1)) n Hn).
  assert (Hk : process totalItems (Z.to_nat (totalItems - 1)) =
               Processor (Z.max 1 totalItems) totalItems
                 (map (fun i => Progress i (percent i totalItems))
                      (progress_items (Z.max 1 totalItems)) ++
                  [Finished totalItems "Simulated 50ms total"])
                 0).
  { unfold DataProcessor.process, startProcessing, create.
    cbn [emitted timers].
    destruct (Z.le_gt_cases totalItems 1) as [Hsmall | Hbig].
    - replace (Z.to_nat (totalItems - 1)) with O by lia.
      replace (Z.max 1 totalItems) with 1 by lia.
      cbn [Nat.iter nat_rect].
      rewrite (chunk_finishes 0 totalItems []) by lia. reflexivity.
    - assert (Hcases : totalItems = 2 \/ totalItems = 3 \/ totalItems = 4)
        by lia.
      rewrite (chunk_goes_on 0 totalItems []) by lia.
      destruct Hcases as [-> | [-> | ->]].
      + change (Z.to_nat (2 - 1)) with 1%nat.
        rewrite iterate, tick_finishes by lia. reflexivity.
      + change (Z.to_nat (3 - 1)) with 2%nat.
        rewrite iterate, tick_goes_on by lia.
        rewrite iterate, tick_finishes by lia. reflexivity.
      + change (Z.to_nat (4 - 1)) with 3%nat.
        rewrite iterate, tick_goes_on by lia.
        rewrite iterate, tick_goes_on by lia.
        rewrite iterate, tick_finishes by lia. reflexivity. }
  rewrite Hk. apply idle. reflexivity.
Qed.

(** One call keeps the count between 1 and 5 and at most one timer, which
    is there only while items are left. *)
Lemma chunk_bounds (pc total : Z) (ev : list event) :
  0 <= pc < 5 ->
  let p := _processNextChunk percent (Processor pc total ev 0) in
  1 <= processedCount p <= 5 /\
  totalCount p = total /\
  (timers p <= 1)%nat /\
  (timers p = 1%nat -> processedCount p < 5 /\ processedCount p < total).
Proof.
  intros Hpc. unfold _processNextChunk.
  cbn [processedCount totalCount emitted timers].
  destruct (Z.eqb_spec (pc + 1) 5) as [H5 | H5]; simpl.
  - repeat split; lia.
  - destruct ((Z.rem (pc + 1) 2 =? 0) || (pc + 1 =? 1));
      unfold emit, setTimeout; cbn [processedCount totalCount emitted timers];
      destruct (Z.ltb_spec (pc + 1) total); simpl;
      repeat split; lia.
Qed.

(** X13. Whatever the total and however many timers fire, the processor
    has counted at least one item and never more than five, and it has at
    most one call scheduled, and that only while it is below item 5 and
    below the total: calls do not pile up, and nothing runs past the
    failure at item 5. *)
Theorem processor_bounds (totalItems : Z) (n : nat) :
  let p := process totalItems n in
  1 <= processedCount p <= 5 /\
  totalCount p = totalItems /\
  (timers p <= 1)%nat /\
  (timers p = 1%nat ->
   processedCount p < 5 /\ processedCount p < totalItems).
Proof.
  unfold DataProcessor.process.
  induction n as [|n IH].
  - unfold startProcessing, create. cbn [Nat.iter nat_rect emitted timers].
    apply (chunk_bounds 0 totalItems []). lia.
  - rewrite Nat.iter_succ.
    destruct (Nat.iter n tick (startProcessing percent create totalItems))
      as [pc total ev tm].
    cbn [processedCount totalCount emitted timers] in IH.
    destruct IH as (Hpc & -> & Htm & Hleft).
    unfold DataProcessor.tick. cbn [processedCount totalCount emitted timers].
    destruct tm as [|tm].
    + cbn [processedCount totalCount emitted timers]. auto.
    + assert (tm = O) by lia. subst tm.
      destruct (Hleft eq_refl) as [Hlt5 Hlt].
      apply (chunk_bounds pc totalItems ev). lia.
Qed.


End DataProcessing.

Lemma halts_at_item_five_witness :
  (5 <= 10 /\ (4 <= 7)%nat) /\
  DataProcessor.process nearest_percent 10 7 =
  DataProcessor.Processor 5 10
    [DataProcessor.Progress 1 (Js.Num 10);
     DataProcessor.Progress 2 (Js.Num 20);
     DataProcessor.Progress 4 (Js.Num 40);
     DataProcessor.Failed (Js.Error
       "Processing failed at item 5 due to simulated server connection loss.")]
    0.
Proof.
  split; [lia |].
  exact (halts_at_item_five nearest_percent 10 7 ltac:(lia) ltac:(lia)).
Defined.

Lemma finishes_small_totals_witness :
  (3 <= 4 /\ (Z.to_nat (3 - 1) <= 2)%nat) /\
  DataProcessor.process nearest_percent 3 2 =
  DataProcessor.Processor 3 3
    [DataProcessor.Progress 1 (Js.Num 33);
     DataProcessor.Progress 2 (Js.Num 67);
     DataProcessor.Finished 3 "Simulated 50ms total"]
    0.
Proof.
  split; [split; [lia | simpl; lia] |].
  exact (finishes_small_totals nearest_percent 3 2 ltac:(lia) ltac:(simpl; lia)).
Defined.

(* ===================================================================== *)
(** * The configuration of the health checker *)

Section HealthCheckerInterval.

Import HealthChecker.

(** X14. Whatever [CHECK_INTERVAL_SECONDS] holds, or when it is not set,
    the interval is a number, never [NaN], and it is positive: either an
    integer of at least one second, for which [setInterval] gets 1000 times
    as many milliseconds or a double beyond 2^53, or itself a double beyond
    2^53. It is the default of 5 seconds whenever [parseInt] reads no
    number or a number that is not positive. *)
Theorem interval_is_positive (CHECK_INTERVAL_SECONDS : option string) :
  match intervalSeconds CHECK_INTERVAL_SECONDS with
  | Int s =>
      1 <= s <= 2 ^ 53 /\
      (parseInt CHECK_INTERVAL_SECONDS = Int s \/ s = DEFAULT_INTERVAL) /\
      match intervalMs CHECK_INTERVAL_SECONDS with
      | Int ms => ms = 1000 * s /\ 1000 <= ms
      | Beyond negative => negative = false /\ 2 ^ 53 < 1000 * s
      | NaN => False
      end
  | Beyond negative =>
      negative = false /\ intervalMs CHECK_INTERVAL_SECONDS = Beyond false
  | NaN => False
  end /\
  match parseInt CHECK_INTERVAL_SECONDS with
  | Int n =>
      n <= 0 -> intervalSeconds CHECK_INTERVAL_SECONDS = Int DEFAULT_INTERVAL
  | Beyond negative =>
      negative = true ->
      intervalSeconds CHECK_INTERVAL_SECONDS = Int DEFAULT_INTERVAL
  | NaN => intervalSeconds CHECK_INTERVAL_SECONDS = Int DEFAULT_INTERVAL
  end.
Proof.
  assert (Hint : forall z, parseInt CHECK_INTERVAL_SECONDS = Int z ->
                           Z.abs z <= 2 ^ 53).
  { intros z. unfold parseInt.
    destruct (match trim_start _ with
              | EmptyString => _ | String _ _ => _ end) as [sign S].
    destruct (starts_with_digit S); [| discriminate].
    unfold of_integer.
    destruct (Z.leb_spec (Z.abs (sign * digits 0 S)) (2 ^ 53)) as [Hle |];
      [| discriminate].
    intros Heq. injection Heq as <-. exact Hle. }
  unfold intervalMs, intervalSeconds, DEFAULT_INTERVAL.
  destruct (parseInt CHECK_INTERVAL_SECONDS) as [n | negative |] eqn:Hparse.
  - specialize (Hint n eq_refl).
    destruct (Z.leb_spec n 0) as [Hn | Hn].
    + split; [| reflexivity]. cbn [times_1000]. unfold of_integer.
      change (Z.abs (5 * 1000) <=? 2 ^ 53) with true. cbv iota.
      repeat split; lia.
    + split; [| lia]. cbn [times_1000]. unfold of_integer.
      split; [lia |]. split; [left; reflexivity |].
      destruct (Z.leb_spec (Z.abs (n * 1000)) (2 ^ 53)) as [Hms | Hms].
      * split; lia.
      * destruct (Z.ltb_spec (n * 1000) 0); split; try reflexivity; lia.
  - destruct negative.
    + split; [| reflexivity]. cbn [times_1000]. unfold of_integer.
      change (Z.abs (5 * 1000) <=? 2 ^ 53) with true. cbv iota.
      repeat split; lia.
    + split; [split; reflexivity | discriminate].
  - split; [| reflexivity]. cbn [times_1000]. unfold of_integer.
    change (Z.abs (5 * 1000) <=? 2 ^ 53) with true. cbv iota.
    repeat split; lia.
Qed.

Lemma digits_stop (acc : Z) (s : string) :
  starts_with_digit s = false -> digits acc s = acc.
Proof.
  destruct s as [|c rest]; simpl; [reflexivity |].
  intros H. now rewrite H.
Qed.

(** The digits of a decimal numeral, read after the digits of [acc]. *)
Lemma digits_numeral (d : Decimal.uint) (acc : positive) (rest : string) :
  starts_with_digit rest = false ->
  digits (Zpos acc) (NilEmpty.string_of_uint d +:+ rest) =
  Zpos (Pos.of_uint_acc d acc).
Proof.
  intros Hrest. revert acc.
  induction d as [|d IH|d IH|d IH|d IH|d IH|d IH|d IH|d IH|d IH|d IH];
    intros acc;
    [ apply digits_stop, Hrest | .. ];
    cbn [NilEmpty.string_of_uint String.append digits Pos.of_uint_acc];
    change (is_digit _) with true; cbv iota;
    rewrite <- IH; f_equal; unfold code; simpl N_of_ascii; lia.
Qed.

Lemma digits_of_numeral (d : Decimal.uint) (rest : string) :
  starts_with_digit rest = false ->
  digits 0 (NilEmpty.string_of_uint d +:+ rest) = Z.of_N (Pos.of_uint d).
Proof.
  intros Hrest.
  induction d as [|d IH|d IH|d IH|d IH|d IH|d IH|d IH|d IH|d IH|d IH];
    [ apply digits_stop, Hrest | exact IH | .. ];
    cbn [NilEmpty.string_of_uint String.append digits Pos.of_uint];
    change (is_digit _) with true; cbv iota;
    cbn [Z.of_N]; rewrite <- (digits_numeral d _ rest Hrest);
    f_equal.
Qed.

(** A numeral that is not empty starts with a digit. *)
Lemma numeral_head (d : Decimal.uint) :
  d <> Decimal.Nil ->
  exists c s, NilEmpty.string_of_uint d = String c s /\
              is_digit c = true /\ is_white_space c = false /\
              Ascii.eqb c minus = false /\ Ascii.eqb c plus = false.
Proof.
  intros Hd. destruct d; [contradiction | ..];
    eexists; eexists; (split; [reflexivity |]); repeat split.
Qed.

(** X15. A positive number of seconds written in decimal, small enough
    for its milliseconds to be exact (1000 times it is at most 2^53), is
    read back as it is, also when text that does not start with a digit
    follows it, as in ['10s'] or ['30 seconds']: [parseInt] reads the
    digits and lets the rest go, and [setInterval] gets 1000 times the
    number. *)
Theorem interval_read_back (n : Z) (rest : string) :
  0 < n -> 1000 * n <= 2 ^ 53 ->
  starts_with_digit rest = false ->
  parseInt (Some (Js.number_to_string n +:+ rest)) = Int n /\
  intervalSeconds (Some (Js.number_to_string n +:+ rest)) = Int n /\
  intervalMs (Some (Js.number_to_string n +:+ rest)) = Int (1000 * n).
Proof.
  intros Hpos Hsmall Hrest.
  assert (Hparse : parseInt (Some (Js.number_to_string n +:+ rest)) = Int n).
  { destruct n as [|p|p]; try lia.
    unfold Js.number_to_string. cbn [Z.to_int NilZero.string_of_int].
    pose proof (DecimalPos.Unsigned.to_uint_nonnil p) as Hnil.
    pose proof (DecimalPos.Unsigned.of_to p) as Hback.
    pose proof (digits_of_numeral (Pos.to_uint p) rest Hrest) as Hdigits.
    destruct (numeral_head _ Hnil) as (c & s & Hs & Hdig & Hws & Hminus & Hplus).
    assert (Hz : NilZero.string_of_uint (Pos.to_uint p) =
                 NilEmpty.string_of_uint (Pos.to_uint p)).
    { unfold NilZero.string_of_uint.
      destruct (Pos.to_uint p); [contradiction | reflexivity ..]. }
    rewrite Hz. rewrite Hback in Hdigits. rewrite Hs in *.
    unfold parseInt. cbn [default from_option id String.append trim_start].
    rewrite Hws, Hminus, Hplus. cbn [starts_with_digit]. rewrite Hdig.
    cbn [String.append] in Hdigits. rewrite Hdigits.
    cbn [Z.of_N]. unfold of_integer.
    destruct (Z.leb_spec (Z.abs (1 * Z.pos p)) (2 ^ 53)); [| lia].
    reflexivity. }
  unfold intervalMs, intervalSeconds. rewrite Hparse.
  destruct (Z.leb_spec n 0); [lia |].
  split; [reflexivity |]. split; [reflexivity |].
  cbn [times_1000]. unfold of_integer.
  destruct (Z.leb_spec (Z.abs (n * 1000)) (2 ^ 53)); [| lia].
  f_equal. lia.
Qed.

(** X16. The target of the checks is never empty. The command-line
    argument wins when it is there and not empty; an argument that is
    missing or empty gives way to [API_URL], and [API_URL] missing or
    empty to the placeholder. *)
Theorem target_url_precedence (argv2 API_URL : option string) :
  let empty (v : option string) :=
    match v with Some (String _ _) => false | _ => true end in
  targetUrl argv2 API_URL =
    (if negb (empty argv2) then argv2
     else if negb (empty API_URL) then API_URL
     else Some "https://httpbin.org/status/200"%string) /\
  empty (targetUrl argv2 API_URL) = false.
Proof.
  destruct argv2 as [[|a s] |], API_URL as [[|b u] |]; split; reflexivity.
Qed.

End HealthCheckerInterval.

Lemma interval_read_back_witness :
  (0 < 10 /\ 1000 * 10 <= 2 ^ 53 /\
   HealthChecker.starts_with_digit "s" = false) /\
  HealthChecker.intervalMs (Some "10s"%string) = HealthChecker.Int 10000.
Proof.
  split; [split; [lia | split; [lia | reflexivity]] |].
  exact (proj2 (proj2 (interval_read_back 10 "s" ltac:(lia) ltac:(lia) eq_refl))).
Defined.
